(** * Search and ranking core of the travel organizer

    A shallow embedding of [nlp-service.ts] (the text analyzer and query
    planner), [enhanced-search.ts] (index builder, retrieval engine and
    result fusion), the enrichment client of [ai-service], the search
    handler of [universal-search.tsx] and the basic search of [database],
    followed by the properties that the specification states about them.

    Conventions.  JavaScript strings are [string]s over ASCII, a JS [Set] or
    [Map] is a list in insertion order, [undefined] is [None], scores are
    exact rationals, and the external libraries (compromise, Fuse.js,
    FlexSearch, IndexedDB, fetch) are parameters of the model. *)

From Stdlib Require Import List String Ascii Bool Arith ZArith QArith Lia Permutation.
From Stdlib Require Import Sorted Lqa.
Import ListNotations.

Local Open Scope string_scope.
Local Open Scope list_scope.

(** ** JavaScript string and collection primitives *)

Module Js.

Definition is_upper (c : ascii) : bool :=
  let n := nat_of_ascii c in (65 <=? n)%nat && (n <=? 90)%nat.

Definition lower_char (c : ascii) : ascii :=
  if is_upper c then ascii_of_nat (nat_of_ascii c + 32) else c.

(** [String.prototype.toLowerCase] *)
Fixpoint toLowerCase (s : string) : string :=
  match s with
  | EmptyString => EmptyString
  | String c s' => String (lower_char c) (toLowerCase s')
  end.

(** [String.prototype.includes] *)
Fixpoint includes (s kw : string) : bool :=
  prefix kw s ||
  match s with
  | EmptyString => false
  | String _ s' => includes s' kw
  end.

(** [String.prototype.split] with a one-character separator *)
Fixpoint split (sep : ascii) (s : string) : list string :=
  match s with
  | EmptyString => [EmptyString]
  | String c s' =>
      if Ascii.eqb c sep then EmptyString :: split sep s'
      else match split sep s' with
           | w :: ws => String c w :: ws
           | [] => [String c EmptyString]
           end
  end.

Definition is_terminator (c : ascii) : bool :=
  Ascii.eqb c "." || Ascii.eqb c "!" || Ascii.eqb c "?".

(** [s.split(/[.!?]+/)]: [in_run] tells that the previous character
    belonged to a separator run, which has already opened a new piece. *)
Fixpoint split_run (in_run : bool) (s : string) : list string :=
  match s with
  | EmptyString => [EmptyString]
  | String c s' =>
      if is_terminator c then
        if in_run then split_run true s'
        else EmptyString :: split_run true s'
      else match split_run false s' with
           | w :: ws => String c w :: ws
           | [] => [String c EmptyString]
           end
  end.

Definition split_sentences (s : string) : list string := split_run false s.

Definition is_space (c : ascii) : bool :=
  let n := nat_of_ascii c in ((9 <=? n)%nat && (n <=? 13)%nat) || (n =? 32)%nat.

Fixpoint trimStart (s : string) : string :=
  match s with
  | EmptyString => EmptyString
  | String c s' => if is_space c then trimStart s' else s
  end.

Fixpoint trimEnd (s : string) : string :=
  match s with
  | EmptyString => EmptyString
  | String c s' =>
      match trimEnd s' with
      | EmptyString => if is_space c then EmptyString else String c EmptyString
      | t => String c t
      end
  end.

(** [String.prototype.trim] *)
Definition trim (s : string) : string := trimEnd (trimStart s).

(** [Array.prototype.join] *)
Fixpoint join (sep : string) (l : list string) : string :=
  match l with
  | [] => EmptyString
  | [x] => x
  | x :: rest => (x ++ sep ++ join sep rest)%string
  end.

(** Truthiness of a possibly absent string: [undefined] and [''] are falsy. *)
Definition truthy (o : option string) : bool :=
  match o with
  | Some (String _ _) => true
  | _ => false
  end.

(** [a || b] on possibly absent strings *)
Definition or_else (o : option string) (d : option string) : option string :=
  if truthy o then o else d.

Definition or_empty (o : option string) : string :=
  match o with
  | Some s => s
  | None => EmptyString
  end.

Definition mem (x : string) (l : list string) : bool :=
  existsb (String.eqb x) l.

(** [Set.prototype.add] on a set kept in insertion order *)
Definition set_add (x : string) (l : list string) : list string :=
  if mem x l then l else l ++ [x].

(** [Array.prototype.slice(0, end)] for an integer [end] *)
Definition slice0 {A} (stop : Z) (l : list A) : list A :=
  if (stop <? 0)%Z
  then firstn (List.length l - Z.to_nat (- stop)) l
  else firstn (Z.to_nat stop) l.

End Js.

(** ** Text analyzer and query planner ([nlp-service.ts]) *)

Module NLP.

(** What the compromise document of a text exposes to the service:
    [doc.text()] and the [text] fields of [doc.nouns().json()],
    [doc.people().json()] and so on. *)
Record Doc := {
  doc_text : string;
  doc_nouns : list string;
  doc_adjectives : list string;
  doc_people : list string;
  doc_places : list string;
  doc_organizations : list string;
  doc_money : list string;
  doc_dates : list string
}.

Inductive Sentiment := positive | negative | neutral.

Record ExtractedEntities := {
  people : list string;
  places : list string;
  organizations : list string;
  money : list string;
  dates : list string;
  topics : list string;
  sentiment : Sentiment;
  categories : list string
}.

(** [new Date()] is not modelled: a date range records which of the two
    starting points was chosen. *)
Inductive DateStart := SevenDaysAgo | FirstOfMonth.

Record DateRange := { range_start : option DateStart; range_end : option DateStart }.

Record AmountRange := { amount_min : option Z; amount_max : option Z }.

Record Filters := {
  type : option string;
  location : option string;
  person : option string;
  dateRange : option DateRange;
  category : option string;
  amount : option AmountRange
}.

Record SearchQuery := {
  originalQuery : string;
  entities : ExtractedEntities;
  searchTerms : list string;
  filters : Filters
}.

Definition longer_than_one (name : string) : bool := (1 <? String.length name)%nat.

Definition extractPeople (doc : Doc) : list string :=
  filter longer_than_one (doc_people doc).

Definition extractPlaces (doc : Doc) : list string :=
  filter longer_than_one (doc_places doc).

Definition extractOrganizations (doc : Doc) : list string :=
  filter longer_than_one (doc_organizations doc).

Definition extractMoney (doc : Doc) : list string := doc_money doc.

Definition extractDates (doc : Doc) : list string := doc_dates doc.

Definition travelKeywords :=
  ["travel"; "trip"; "vacation"; "journey"; "adventure"; "explore"; "visit"; "tour"].
Definition foodKeywords :=
  ["food"; "restaurant"; "meal"; "cuisine"; "dining"; "eat"; "taste"; "cook"].
Definition cultureKeywords :=
  ["culture"; "museum"; "temple"; "church"; "monument"; "art"; "history"].
Definition natureKeywords :=
  ["nature"; "mountain"; "beach"; "forest"; "park"; "hiking"; "outdoor"].

(** The keyword arrays of [extractTopics], each with [categories[index]]. *)
Definition topicMap : list (string * list string) :=
  [("travel", travelKeywords); ("food", foodKeywords);
   ("culture", cultureKeywords); ("nature", natureKeywords)].

(** [keywords.some(keyword => text.includes(keyword))] *)
Definition some_keyword (text : string) (keywords : list string) : bool :=
  existsb (fun keyword => Js.includes text keyword) keywords.

Definition extractTopics (doc : Doc) : list string :=
  let text := Js.toLowerCase (doc_text doc) in
  fold_left
    (fun topics entry =>
       if some_keyword text (snd entry) then Js.set_add (fst entry) topics else topics)
    topicMap [].

Definition positiveWords :=
  ["amazing"; "great"; "wonderful"; "beautiful"; "love"; "perfect"; "excellent";
   "fantastic"; "awesome"; "good"; "best"; "incredible"].
Definition negativeWords :=
  ["bad"; "terrible"; "awful"; "horrible"; "hate"; "worst"; "disappointing";
   "poor"; "sad"; "angry"].

Definition count_words (text : string) (words : list string) : nat :=
  List.length (filter (fun word => Js.includes text word) words).

Definition analyzeSentiment (doc : Doc) : Sentiment :=
  let text := Js.toLowerCase (doc_text doc) in
  let positiveScore := count_words text positiveWords in
  let negativeScore := count_words text negativeWords in
  if (negativeScore <? positiveScore)%nat then positive
  else if (positiveScore <? negativeScore)%nat then negative
  else neutral.

(** [Object.entries(categoryMap)], in the order the keys are written. *)
Definition categoryMap : list (string * list string) :=
  [("food", ["food"; "restaurant"; "meal"; "eat"; "cook"; "taste"; "cuisine"; "dish"]);
   ("travel", ["travel"; "trip"; "vacation"; "journey"; "flight"; "hotel"; "booking"]);
   ("culture", ["museum"; "temple"; "church"; "monument"; "art"; "history"; "culture"]);
   ("nature", ["nature"; "mountain"; "beach"; "forest"; "park"; "hiking"; "outdoor"]);
   ("adventure", ["adventure"; "explore"; "expedition"; "trekking"; "climbing"; "extreme"]);
   ("entertainment", ["movie"; "show"; "concert"; "festival"; "party"; "music"; "dance"]);
   ("shopping", ["shop"; "buy"; "purchase"; "market"; "store"; "mall"; "souvenir"]);
   ("transport", ["transport"; "bus"; "train"; "taxi"; "uber"; "drive"; "walk"])].

Definition categorizeContent (doc : Doc) : list string :=
  let text := Js.toLowerCase (doc_text doc) in
  fold_left
    (fun categories entry =>
       if some_keyword text (snd entry) then (categories ++ [fst entry])%list else categories)
    categoryMap [].

(** Adds the lowercased texts that pass [keep] to the set, in order. *)
Definition add_lowered (keep : string -> bool) (texts : list string)
           (terms : list string) : list string :=
  fold_left
    (fun acc t => if keep t then Js.set_add (Js.toLowerCase t) acc else acc)
    texts terms.

Definition longer_than_two (t : string) : bool := (2 <? String.length t)%nat.

Definition extractSearchTerms (doc : Doc) : list string :=
  let terms := add_lowered longer_than_two (doc_nouns doc) [] in
  add_lowered longer_than_two (doc_adjectives doc) terms.

Definition typeKeywords : list (string * string) :=
  [("temple", "culture"); ("restaurant", "food"); ("museum", "culture");
   ("hotel", "accommodation"); ("flight", "transport")].

Definition head_opt (l : list string) : option string :=
  match l with
  | [] => None
  | x :: _ => Some x
  end.

Definition extractFilters (doc : Doc) (query : string) : Filters :=
  let text := Js.toLowerCase query in
  let location := head_opt (extractPlaces doc) in
  let person := head_opt (extractPeople doc) in
  let amount1 :=
    if Js.includes text "expensive" || Js.includes text "costly"
    then Some {| amount_min := Some 50%Z; amount_max := None |} else None in
  let amount2 :=
    if Js.includes text "cheap" || Js.includes text "budget"
    then Some {| amount_min := None; amount_max := Some 20%Z |} else amount1 in
  let dateRange1 :=
    if Js.includes text "last week"
    then Some {| range_start := Some SevenDaysAgo; range_end := None |} else None in
  let dateRange2 :=
    if Js.includes text "this month"
    then Some {| range_start := Some FirstOfMonth; range_end := None |} else dateRange1 in
  let type :=
    fold_left
      (fun acc entry => if Js.includes text (fst entry) then Some (snd entry) else acc)
      typeKeywords None in
  {| type := type; location := location; person := person;
     dateRange := dateRange2; category := None; amount := amount2 |}.

Definition tag_length_ok (t : string) : bool :=
  (2 <? String.length t)%nat && (String.length t <? 20)%nat.

(** The tags that the nouns of a document give. *)
Definition noun_tags (doc : Doc) : list string :=
  add_lowered tag_length_ok (doc_nouns doc) [].

(** [xs.forEach(x => tags.add(x))] *)
Definition add_all (xs : list string) (tags : list string) : list string :=
  fold_left (fun acc x => Js.set_add x acc) xs tags.

(** What [if (type) tags.add(type)] adds. *)
Definition type_tag (type : option string) : list string :=
  match type with
  | Some t => if Js.truthy type then [t] else []
  | None => []
  end.

Section Analyzer.

(** The compromise parser, [nlp(text)]. *)
Variable nlp : string -> Doc.

Definition extractEntities (text : string) : ExtractedEntities :=
  let doc := nlp text in
  {| people := extractPeople doc;
     places := extractPlaces doc;
     organizations := extractOrganizations doc;
     money := extractMoney doc;
     dates := extractDates doc;
     topics := extractTopics doc;
     sentiment := analyzeSentiment doc;
     categories := categorizeContent doc |}.

Definition parseSearchQuery (query : string) : SearchQuery :=
  let doc := nlp query in
  let entities := extractEntities query in
  {| originalQuery := query;
     entities := entities;
     searchTerms := extractSearchTerms doc;
     filters := extractFilters doc query |}.

(** The set of tags before the final [slice(0, 10)], in insertion order. *)
Definition tag_set (text : string) (type : option string) : list string :=
  let doc := nlp text in
  let tags := noun_tags doc in
  let tags := add_all (extractTopics doc) tags in
  let tags := add_all (type_tag type) tags in
  add_all (categorizeContent doc) tags.

Definition generateTags (text : string) (type : option string) : list string :=
  Js.slice0 10 (tag_set text type).

End Analyzer.

End NLP.

(** ** Errors and state *)

(** A synchronous computation that may throw. *)
Inductive Try (A : Type) : Type :=
| Ok (a : A)
| Raise (e : string).
Arguments Ok {A} a.
Arguments Raise {A} e.

(** ** Index builder, retrieval engine and result fusion ([enhanced-search.ts]) *)

Module Search.

Record SearchableItem := {
  id : string;
  title : option string;
  name : option string;
  description : option string;
  content : option string;
  location : option string;
  tags : list string;
  _type : string;
  createdAt : string;
  updatedAt : string;
  searchableText : option string
}.

Record EnhancedSearchResult := {
  item : SearchableItem;
  _score : Q;
  _matchedFields : list string;
  _snippet : option string
}.

(** One element of [fuseInstance.search(...)]: the record, the match
    distance [score] and the [key]s of [matches]. *)
Record FuseResult := {
  fuse_item : SearchableItem;
  fuse_score : option Q;
  fuse_matches : option (list (option string))
}.

Record Options := {
  modules : option (list string);
  limit : option Z;
  threshold : option Q
}.

(** The service object: the FlexSearch document index (the documents it
    accepted), the Fuse instances by collection in insertion order (each
    with the documents it was built from), the time of the last build, and
    the number of [Date.now()] calls made so far. *)
Record State := {
  searchIndex : option (list SearchableItem);
  fuseInstances : list (string * list SearchableItem);
  lastIndexUpdate : Z;
  clock : nat
}.

(** The service as first constructed. *)
Definition initial : State :=
  {| searchIndex := None; fuseInstances := []; lastIndexUpdate := 0; clock := 0 |}.

(** The collaborators of the service. *)
Record World := {
  (** compromise: [nlp(text)] *)
  nlp : string -> NLP.Doc;
  (** Fuse.js: [new Fuse(docs, fuseOptions).search(query, { limit })] *)
  fuse : list SearchableItem -> string -> Z -> list FuseResult;
  (** the record store: [database.getAll(storeName)], [None] when it rejects *)
  getAll : string -> option (list SearchableItem);
  (** the value of the n-th call of [Date.now()] *)
  now : nat -> Z;
  (** FlexSearch: whether [searchIndex.add(doc)] returns rather than throws *)
  flexAccepts : SearchableItem -> bool;
  (** [database.universalSearch(query)]: [Raise] when it rejects, as it does
      when the read of a collection rejects *)
  universalSearch : string -> Try (list EnhancedSearchResult)
}.

(** The outcome of running an [async] method on the service: it returns, it
    rejects, or the model runs out of fuel before it settles. *)
Inductive Run (A : Type) : Type :=
| Returned (a : A) (st : State)
| Thrown (e : string) (st : State)
| Pending.
Arguments Returned {A} a st.
Arguments Thrown {A} e st.
Arguments Pending {A}.

Definition M (A : Type) : Type := State -> Run A.

Definition ret {A} (a : A) : M A := fun st => Returned a st.

Definition bind {A B} (m : M A) (k : A -> M B) : M B :=
  fun st =>
    match m st with
    | Returned a st' => k a st'
    | Thrown e st' => Thrown e st'
    | Pending => Pending
    end.

Definition throw {A} (e : string) : M A := fun st => Thrown e st.

Definition pending {A} : M A := fun _ => Pending.

(** [try { m } catch (error) { handler }] *)
Definition try_catch {A} (m : M A) (handler : string -> M A) : M A :=
  fun st =>
    match m st with
    | Returned a st' => Returned a st'
    | Thrown e st' => handler e st'
    | Pending => Pending
    end.

Definition get : M State := fun st => Returned st st.

Definition modify (f : State -> State) : M unit := fun st => Returned tt (f st).

Notation "x <- m ;; k" := (bind m (fun x => k))
  (at level 61, m at next level, right associativity).
Notation "m ;;; k" := (bind m (fun _ => k))
  (at level 61, right associativity).

(** [for (const x of l) { await body(x) }] *)
Fixpoint for_each {A} (l : list A) (body : A -> M unit) : M unit :=
  match l with
  | [] => ret tt
  | x :: rest => body x ;;; for_each rest body
  end.

Definition indexUpdateInterval : Z := 5 * 60 * 1000.

Definition stores : list string :=
  ["travelPins"; "people"; "journalEntries"; "expenses";
   "checklistItems"; "learningEntries"; "foodEntries"; "gearItems"].

(** [Map.prototype.set] on a map kept in insertion order *)
Fixpoint map_set {V} (key : string) (v : V) (m : list (string * V)) : list (string * V) :=
  match m with
  | [] => [(key, v)]
  | (k, w) :: rest =>
      if String.eqb k key then (k, v) :: rest else (k, w) :: map_set key v rest
  end.

(** [Map.prototype.get] *)
Fixpoint map_get {V} (key : string) (m : list (string * V)) : option V :=
  match m with
  | [] => None
  | (k, w) :: rest => if String.eqb k key then Some w else map_get key rest
  end.

Definition createSearchableText (it : SearchableItem) : string :=
  let parts :=
    ([Js.or_empty (title it); Js.or_empty (name it); Js.or_empty (description it);
      Js.or_empty (content it); Js.or_empty (location it)] ++ tags it)%list in
  Js.toLowerCase
    (Js.join " " (filter (fun part => Js.truthy (Some part)) parts)).

(** [{ ...item, _type: storeName, searchableText: ... }] *)
Definition processItem (storeName : string) (it : SearchableItem) : SearchableItem :=
  {| id := id it; title := title it; name := name it; description := description it;
     content := content it; location := location it; tags := tags it;
     _type := storeName; createdAt := createdAt it; updatedAt := updatedAt it;
     searchableText := Some (createSearchableText it) |}.

Definition Qlt_bool (a b : Q) : bool := negb (Qle_bool b a).

Definition snippet_source (it : SearchableItem) : string :=
  Js.or_empty
    (Js.or_else (description it)
       (Js.or_else (content it)
          (Js.or_else (title it) (Js.or_else (name it) (Some ""))))).

Definition count_matches (queryWords : list string) (sentence : string) : nat :=
  List.length (filter (fun word => Js.includes (Js.toLowerCase sentence) word) queryWords).

(** The [forEach] over the sentences of [generateSnippet], carrying
    [(bestSentence, maxMatches)]. *)
Definition bestSentence (it : SearchableItem) (query : string) : string :=
  let queryWords := Js.split " " (Js.toLowerCase query) in
  let sentences := Js.split_sentences (snippet_source it) in
  fst (fold_left
         (fun best sentence =>
            let matches := count_matches queryWords sentence in
            if (snd best <? matches)%nat then (sentence, matches) else best)
         sentences (EmptyString, 0%nat)).

Definition generateSnippet (it : SearchableItem) (query : string) : string :=
  let best := bestSentence it query in
  (substring 0 150 (Js.trim best)
     ++ (if (150 <? String.length best)%nat then "..." else ""))%string.

Definition ResultMap : Type := list (string * EnhancedSearchResult).

Definition key_of (moduleType recordId : string) : string :=
  (moduleType ++ "-" ++ recordId)%string.

(** [!results.has(key) || results.get(key)!._score < score] *)
Definition absent_or_below (key : string) (score : Q) (results : ResultMap) : bool :=
  match map_get key results with
  | None => true
  | Some r => Qlt_bool (_score r) score
  end.

(** [1 - (result.score || 0)] *)
Definition similarity (result : FuseResult) : Q :=
  match fuse_score result with
  | Some d => 1 - d
  | None => 1 - 0
  end.

Definition fuzzy_entry (query : string) (result : FuseResult) : EnhancedSearchResult :=
  {| item := fuse_item result;
     _score := similarity result * (8 # 10);
     _matchedFields :=
       match fuse_matches result with
       | Some ms => map Js.or_empty ms
       | None => []
       end;
     _snippet := Some (generateSnippet (fuse_item result) query) |}.

(** The body of [fuseResults.forEach] in the fuzzy tier. *)
Definition fuzzy_add (moduleType query : string) (threshold : Q)
           (results : ResultMap) (result : FuseResult) : ResultMap :=
  let key := key_of moduleType (id (fuse_item result)) in
  let score := similarity result in
  if Qle_bool threshold score && absent_or_below key score results
  then map_set key (fuzzy_entry query result) results
  else results.

(** [modules && !modules.includes(moduleType)] *)
Definition excluded (modules : option (list string)) (moduleType : string) : bool :=
  match modules with
  | Some ms => negb (Js.mem moduleType ms)
  | None => false
  end.

Definition result_key (r : EnhancedSearchResult) : string :=
  key_of (_type (item r)) (id (item r)).

(** The body of [nlpResults.forEach] and of the deduplication of
    [semanticSearch]: the stored entry is replaced by a strictly better one. *)
Definition merge_result (results : ResultMap) (r : EnhancedSearchResult) : ResultMap :=
  if absent_or_below (result_key r) (_score r) results
  then map_set (result_key r) r results
  else results.

(** [{ ...result, _score: result._score * factor,
       _matchedFields: [...result._matchedFields, tag] }] *)
Definition rescore (factor : Q) (tag : string) (r : EnhancedSearchResult)
  : EnhancedSearchResult :=
  {| item := item r; _score := _score r * factor;
     _matchedFields := _matchedFields r ++ [tag]; _snippet := _snippet r |}.

(** [sort((a, b) => b._score - a._score)]: stable, by descending score *)
Fixpoint insert_desc (x : EnhancedSearchResult) (l : list EnhancedSearchResult)
  : list EnhancedSearchResult :=
  match l with
  | [] => [x]
  | y :: rest =>
      if Qlt_bool (_score x) (_score y) then y :: insert_desc x rest else x :: l
  end.

Definition sort_desc (l : list EnhancedSearchResult) : list EnhancedSearchResult :=
  fold_right insert_desc [] l.

Definition default_limit : Z := 20.
Definition default_threshold : Q := 3 # 10.

Definition limit_of (options : option Options) : Z :=
  match options with
  | Some o => match limit o with Some l => l | None => default_limit end
  | None => default_limit
  end.

Definition threshold_of (options : option Options) : Q :=
  match options with
  | Some o => match threshold o with Some t => t | None => default_threshold end
  | None => default_threshold
  end.

Definition modules_of (options : option Options) : option (list string) :=
  match options with
  | Some o => modules o
  | None => None
  end.

Section Service.

Variable W : World.

(** [Date.now()] *)
Definition date_now : M Z :=
  fun st =>
    Returned (now W (clock st))
             {| searchIndex := searchIndex st; fuseInstances := fuseInstances st;
                lastIndexUpdate := lastIndexUpdate st; clock := S (clock st) |}.

(** [await database.getAll(storeName)] *)
Definition database_getAll (storeName : string) : M (list SearchableItem) :=
  match getAll W storeName with
  | Some items => ret items
  | None => throw "getAll rejected"
  end.

(** [this.searchIndex.add(item)] inside its own [try]: a document that
    FlexSearch refuses is logged and skipped. *)
Definition flex_add (st : State) (it : SearchableItem) : State :=
  match searchIndex st with
  | Some docs =>
      if flexAccepts W it
      then {| searchIndex := Some (docs ++ [it]); fuseInstances := fuseInstances st;
              lastIndexUpdate := lastIndexUpdate st; clock := clock st |}
      else st
  | None => st
  end.

Definition set_fuse (storeName : string) (docs : list SearchableItem) (st : State) : State :=
  {| searchIndex := searchIndex st;
     fuseInstances := map_set storeName docs (fuseInstances st);
     lastIndexUpdate := lastIndexUpdate st; clock := clock st |}.

(** The part of [buildSearchIndex] before the loop: a fresh FlexSearch
    index and [this.fuseInstances.clear()]. *)
Definition reset_index : M unit :=
  modify (fun st =>
            {| searchIndex := Some []; fuseInstances := [];
               lastIndexUpdate := lastIndexUpdate st; clock := clock st |}).

(** One turn of the loop over [stores], with its [try]/[catch]. *)
Definition index_store (storeName : string) : M unit :=
  try_catch
    (items <- database_getAll storeName ;;
     let processedItems := map (processItem storeName) items in
     modify (fun st => fold_left flex_add processedItems st) ;;;
     modify (set_fuse storeName processedItems))
    (fun _ => ret tt).

Definition stamp_index : M unit :=
  t <- date_now ;;
  modify (fun st =>
            {| searchIndex := searchIndex st; fuseInstances := fuseInstances st;
               lastIndexUpdate := t; clock := clock st |}).

Definition buildSearchIndex : M unit :=
  reset_index ;;;
  for_each stores index_store ;;;
  stamp_index.

(** The build as far as it has run when it is suspended at the [await]
    of the read of collection number [k] (counting from 0): control
    returns to the event loop there, and other callers of the service
    run against the state it leaves. *)
Definition build_suspended (k : nat) : M unit :=
  reset_index ;;;
  for_each (firstn k stores) index_store.

Definition rebuildIndex : M unit :=
  modify (fun st =>
            {| searchIndex := searchIndex st; fuseInstances := fuseInstances st;
               lastIndexUpdate := 0; clock := clock st |}) ;;;
  buildSearchIndex.

Definition initialize : M unit := buildSearchIndex.


(** The fuzzy tier: the loop over [this.fuseInstances]. *)
Definition fuzzy_tier (modules : option (list string)) (limit : Z) (threshold : Q)
           (query : string) (instances : list (string * list SearchableItem))
           (results : ResultMap) : ResultMap :=
  fold_left
    (fun acc instance =>
       if excluded modules (fst instance) then acc
       else fold_left (fuzzy_add (fst instance) query threshold)
                      (fuse W (snd instance) query limit) acc)
    instances results.

Section Retrieval.

(** [this.search], as the helpers below call it. *)
Variable search_rec : string -> option Options -> M (list EnhancedSearchResult).

Definition searchWithNLP (parsedQuery : NLP.SearchQuery)
           (modules : option (list string)) : M (list EnhancedSearchResult) :=
  match NLP.searchTerms parsedQuery with
  | [] => ret []
  | terms =>
      let termQuery := Js.join " " terms in
      basicResults <- search_rec termQuery
                        (Some {| modules := modules; limit := Some 10%Z;
                                 threshold := None |}) ;;
      ret (map (rescore (6 # 10) "nlp") basicResults)
  end.

Fixpoint searchByEntity (entityType : string) (entities : list string)
  : M (list EnhancedSearchResult) :=
  match entities with
  | [] => ret []
  | entity :: rest =>
      entityResults <- search_rec entity
                         (Some {| modules := None; limit := Some 5%Z;
                                  threshold := None |}) ;;
      others <- searchByEntity entityType rest ;;
      ret (map (rescore (7 # 10) entityType) entityResults ++ others)
  end.

Definition searchByFilters (filters : NLP.Filters) : M (list EnhancedSearchResult) :=
  fromLocation <-
    (if Js.truthy (NLP.location filters)
     then locationResults <- search_rec (Js.or_empty (NLP.location filters))
                               (Some {| modules := None; limit := Some 10%Z;
                                        threshold := None |}) ;;
          ret (map (rescore (8 # 10) "location") locationResults)
     else ret []) ;;
  fromPerson <-
    (if Js.truthy (NLP.person filters)
     then personResults <- search_rec (Js.or_empty (NLP.person filters))
                             (Some {| modules := Some ["people"]; limit := Some 5%Z;
                                      threshold := None |}) ;;
          ret (map (rescore (9 # 10) "person") personResults)
     else ret []) ;;
  ret (fromLocation ++ fromPerson).

End Retrieval.

(** [if (Date.now() - this.lastIndexUpdate > this.indexUpdateInterval)
      await this.buildSearchIndex()] *)
Definition refresh_if_stale : M unit :=
  t <- date_now ;;
  st <- get ;;
  if (indexUpdateInterval <? t - lastIndexUpdate st)%Z
  then buildSearchIndex else ret tt.

(** [search(query, options)].  The FlexSearch lookup of the first tier
    only logs what it finds (or the error it throws) and adds nothing to
    [results]; it is left out.  [fuel] bounds the depth of the calls
    [search] -> [searchWithNLP] -> [search]. *)
Fixpoint search (fuel : nat) (query : string) (options : option Options)
  : M (list EnhancedSearchResult) :=
  match fuel with
  | O => pending
  | S fuel' =>
      let parsedQuery := NLP.parseSearchQuery (nlp W) query in
      refresh_if_stale ;;;
      st <- get ;;
      let results :=
        fuzzy_tier (modules_of options) (limit_of options) (threshold_of options)
                   query (fuseInstances st) [] in
      nlpResults <- searchWithNLP (search fuel') parsedQuery (modules_of options) ;;
      let results := fold_left merge_result nlpResults results in
      ret (Js.slice0 (limit_of options) (sort_desc (map snd results)))
  end.

(** [!modules || modules.includes(result._type)] *)
Definition in_modules (modules : option (list string)) (r : EnhancedSearchResult) : bool :=
  match modules with
  | Some ms => Js.mem (_type (item r)) ms
  | None => true
  end.

Definition semanticSearch (fuel : nat) (query : string) (modules : option (list string))
  : M (list EnhancedSearchResult) :=
  let parsedQuery := NLP.parseSearchQuery (nlp W) query in
  peopleResults <-
    (match NLP.people (NLP.entities parsedQuery) with
     | [] => ret []
     | people => searchByEntity (search fuel) "people" people
     end) ;;
  placesResults <-
    (match NLP.places (NLP.entities parsedQuery) with
     | [] => ret []
     | places => searchByEntity (search fuel) "places" places
     end) ;;
  filteredResults <- searchByFilters (search fuel) (NLP.filters parsedQuery) ;;
  let allResults := peopleResults ++ placesResults ++ filteredResults in
  let uniqueResults := fold_left merge_result allResults [] in
  ret (sort_desc (filter (in_modules modules) (map snd uniqueResults))).

End Service.

(** The documents of a collection as the build indexes them; none when
    the read rejects. *)
Definition loaded (W : World) (storeName : string) : list SearchableItem :=
  match getAll W storeName with
  | Some items => map (processItem storeName) items
  | None => []
  end.

(** The Fuse instances that a build creates for the collections [names]. *)
Definition built_instances (W : World) (names : list string)
  : list (string * list SearchableItem) :=
  flat_map (fun s => match getAll W s with
                     | Some items => [(s, map (processItem s) items)]
                     | None => []
                     end) names.


Definition results_of {A} (r : Run (list A)) : list A :=
  match r with
  | Returned l _ => l
  | _ => []
  end.

(** Every hit of the Fuse searches that the fuzzy tier makes, with the
    collection it comes from, in the order the tier meets them. *)
Definition fuzzy_hits (W : World) (modules : option (list string)) (limit : Z)
           (query : string) (instances : list (string * list SearchableItem))
  : list (string * FuseResult) :=
  flat_map
    (fun instance =>
       if excluded modules (fst instance) then []
       else map (fun hit => (fst instance, hit))
                (fuse W (snd instance) query limit))
    instances.

(** The candidates of the fuzzy tier: the hits that pass the threshold
    test, as the entries the tier makes of them. *)
Definition fuzzy_candidates (W : World) (modules : option (list string)) (limit : Z)
           (threshold : Q) (query : string)
           (instances : list (string * list SearchableItem))
  : list EnhancedSearchResult :=
  map (fun mh => fuzzy_entry query (snd mh))
      (filter (fun mh => Qle_bool threshold (similarity (snd mh)))
              (fuzzy_hits W modules limit query instances)).

(** The Fuse instances that [search] started in [st] goes through, after
    its check of the age of the index. *)
Definition index_searched (W : World) (st : State)
  : list (string * list SearchableItem) :=
  match refresh_if_stale W st with
  | Returned _ st1 => fuseInstances st1
  | _ => []
  end.

(** The candidates of the third tier of [search W (S fuel) query options]
    started in [st]: the list [nlpResults]. *)
Definition nlp_candidates (W : World) (fuel : nat) (query : string)
           (options : option Options) (st : State) : list EnhancedSearchResult :=
  match refresh_if_stale W st with
  | Returned _ st1 =>
      results_of (searchWithNLP (search W fuel) (NLP.parseSearchQuery (nlp W) query)
                                (modules_of options) st1)
  | _ => []
  end.

(** Every candidate that the tiers of that call produce. *)
Definition candidates (W : World) (fuel : nat) (query : string)
           (options : option Options) (st : State) : list EnhancedSearchResult :=
  fuzzy_candidates W (modules_of options) (limit_of options) (threshold_of options)
                   query (index_searched W st)
  ++ nlp_candidates W fuel query options st.

(** The query that the third tier searches for: the search terms of the
    query joined by spaces, when there are any. *)
Definition term_query (W : World) (query : string) : option string :=
  match NLP.searchTerms (NLP.parseSearchQuery (nlp W) query) with
  | [] => None
  | terms => Some (Js.join " " terms)
  end.

(** The queries that the nested searches of [query] pass on reach one
    without search terms within [n] steps. *)
Fixpoint settles (W : World) (n : nat) (query : string) : bool :=
  match term_query W query with
  | None => true
  | Some termQuery =>
      match n with
      | O => false
      | S n' => settles W n' termQuery
      end
  end.


(** A result map is keyed by the key of the result it holds. *)
Definition keyed (m : ResultMap) : Prop :=
  NoDup (map fst m) /\ forall k e, In (k, e) m -> k = result_key e.

(** The key under which the fuzzy tier files a hit. *)
Definition hit_key (mh : string * FuseResult) : string :=
  key_of (fst mh) (id (fuse_item (snd mh))).

(** The (collection, record id) pair of a result. *)
Definition record_of (r : EnhancedSearchResult) : string * string :=
  (_type (item r), id (item r)).

(** Fuse.js returns documents it was built from, and each at most once. *)
Definition fuse_faithful (W : World) : Prop :=
  forall docs query limit,
    (forall hit, In hit (fuse W docs query limit) -> In (fuse_item hit) docs)
    /\ (NoDup (map id docs) ->
        NoDup (map (fun hit => id (fuse_item hit)) (fuse W docs query limit))).

(** The record store keeps the identifiers of a collection distinct. *)
Definition store_ids_unique (W : World) : Prop :=
  forall storeName items, getAll W storeName = Some items -> NoDup (map id items).

Fixpoint no_hyphen (s : string) : bool :=
  match s with
  | EmptyString => true
  | String c s' => negb (Ascii.eqb c "-") && no_hyphen s'
  end.

(** What every build establishes of the Fuse instances: one instance per
    collection name, names without a hyphen, and in each instance documents
    with distinct identifiers that carry the name of the collection. *)
Definition wf_index (instances : list (string * list SearchableItem)) : Prop :=
  NoDup (map fst instances)
  /\ forall m docs, In (m, docs) instances ->
                    no_hyphen m = true
                    /\ NoDup (map id docs)
                    /\ forall d, In d docs -> _type d = m.

(** The order that [sort((a, b) => b._score - a._score)] leaves between an
    entry and a later one. *)
Definition by_score (a b : EnhancedSearchResult) : Prop := (_score b <= _score a)%Q.

(** Fuse.js reports match distances between 0 (exact) and 1. *)
Definition distances_in_unit (W : World) : Prop :=
  forall docs query limit hit d,
    In hit (fuse W docs query limit) -> fuse_score hit = Some d -> (0 <= d <= 1)%Q.

(** No call of [Date.now()] finds the index of [st] older than the refresh
    interval. *)
Definition always_fresh (W : World) (st : State) : Prop :=
  forall n, (now W n - lastIndexUpdate st <= indexUpdateInterval)%Z.

(** The state after one more reading of the clock. *)
Definition tick (st : State) : State :=
  {| searchIndex := searchIndex st; fuseInstances := fuseInstances st;
     lastIndexUpdate := lastIndexUpdate st; clock := S (clock st) |}.

(** Two states of the service that differ at most in the number of clock
    readings made. *)
Definition same_index (a b : State) : Prop :=
  searchIndex a = searchIndex b
  /\ fuseInstances a = fuseInstances b
  /\ lastIndexUpdate a = lastIndexUpdate b.

End Search.

(** ** Enrichment client ([AIService.enhancedSearch]) *)

Module AI.

(** The object the client hands back: [{ searchTerms, filters, suggestions }],
    where a field the response lacks is [None]. *)
Record Analysis := {
  searchTerms : option (list string);
  filters : option (list (string * string));
  suggestions : option (list string)
}.

(** What [response.json()] gives: it rejects on a malformed body, and
    otherwise yields an object with [success], its own analysis fields and
    possibly a [fallback]. *)
Inductive Body :=
| Malformed
| Json (success : bool) (result : Analysis) (fallback : option Analysis).

(** What [fetch] gives: it rejects, or it resolves to a response with its
    [ok] flag and body. *)
Inductive FetchResult :=
| Rejected
| Response (ok : bool) (body : Body).

Definition failed (r : FetchResult) : bool :=
  match r with
  | Rejected => true
  | Response false _ => true
  | Response true Malformed => true
  | Response true (Json _ _ _) => false
  end.

(** The object built in the [catch] block. *)
Definition substitute (query : string) : Analysis :=
  {| searchTerms := Some [query]; filters := Some []; suggestions := Some [] |}.

(** The [try] block, given the outcome of the [fetch]. *)
Definition request (r : FetchResult) : Try (option Analysis) :=
  match r with
  | Rejected => Raise "fetch rejected"
  | Response false _ => Raise "AI search failed"
  | Response true Malformed => Raise "invalid JSON"
  | Response true (Json success result fallback) =>
      Ok (if success then Some result else fallback)
  end.

(** [enhancedSearch(query, context)]; [None] is [undefined], the value of
    an absent [result.fallback]. *)
Definition enhancedSearch {C} (fetch : string -> list C -> FetchResult)
           (query : string) (context : list C) : option Analysis :=
  match request (fetch query context) with
  | Ok analysis => analysis
  | Raise _ => Some (substitute query)
  end.

End AI.

(** ** The search handler of the search box ([universal-search.tsx]) *)

Module UniversalSearch.

Import Search.

Section Handler.

Variable W : World.

(** The enrichment endpoint, as [fetch] reaches it. *)
Variable fetch : string -> list EnhancedSearchResult -> AI.FetchResult.

(** [await database.universalSearch(query)] *)
Definition database_universalSearch (query : string) : M (list EnhancedSearchResult) :=
  match universalSearch W query with
  | Ok results => ret results
  | Raise e => throw e
  end.

(** The base search and the handler's choice among the three modes. *)
Definition local_search (fuel : nat) (query : string) : M (list EnhancedSearchResult) :=
  if (10 <? String.length query)%nat
     && (Js.includes query " in " || Js.includes query " with "
         || Js.includes query " from ")
  then semanticSearch W fuel query None
  else if (5 <? String.length query)%nat
  then search W fuel query
         (Some {| modules := None; limit := None; threshold := Some (3 # 10) |})
  else database_universalSearch query.

(** The inner [try] of the enrichment step. *)
Definition enhance (fuel : nat) (query : string)
           (searchResults : list EnhancedSearchResult)
  : M (list EnhancedSearchResult) :=
  match AI.enhancedSearch fetch query (Js.slice0 3 searchResults) with
  | None => throw "TypeError: aiAnalysis is undefined"
  | Some aiAnalysis =>
      match AI.searchTerms aiAnalysis with
      | Some (term :: terms) =>
          enhancedResults <- search W fuel (Js.join " " (term :: terms)) None ;;
          if (List.length searchResults <? List.length enhancedResults)%nat
          then ret enhancedResults
          else ret searchResults
      | _ => ret searchResults
      end
  end.

(** [if (query.length > 8 && searchResults.length < 5) { try ... catch ... }] *)
Definition enrich (fuel : nat) (query : string)
           (searchResults : list EnhancedSearchResult)
  : M (list EnhancedSearchResult) :=
  if (8 <? String.length query)%nat && (List.length searchResults <? 5)%nat
  then try_catch (enhance fuel query searchResults) (fun _ => ret searchResults)
  else ret searchResults.

(** The fallback in the [catch] of [handleSearch], with its own [try]:
    when the basic search rejects too, the error is logged and [setResults]
    is not called. *)
Definition fallback (query : string) : M (option (list EnhancedSearchResult)) :=
  try_catch
    (basicResults <- database_universalSearch query ;;
     ret (Some basicResults))
    (fun _ => ret None).

(** [handleSearch]: the value is the list given to [setResults], [None]
    when [setResults] is not called and the results on display stay. *)
Definition handleSearch (fuel : nat) (query : string)
  : M (option (list EnhancedSearchResult)) :=
  if (String.length (Js.trim query) <? 2)%nat then ret (Some [])
  else
    try_catch
      (searchResults <- local_search fuel query ;;
       searchResults <- enrich fuel query searchResults ;;
       ret (Some searchResults))
      (fun _ => fallback query).

End Handler.

(** The results on display after the handler has run, when [before] were
    on display before it. *)
Definition shown_after (before : list EnhancedSearchResult)
           (r : Run (option (list EnhancedSearchResult))) : list EnhancedSearchResult :=
  match r with
  | Returned (Some results) _ => results
  | _ => before
  end.

End UniversalSearch.

(** ** The basic search of the record store ([database.universalSearch]) *)

Module Database.

(** A stored record: the fields the search engine reads, and [notes], which
    only the basic search reads. *)
Record Stored := {
  fields : Search.SearchableItem;
  notes : option string
}.

(** [{ ...item, _type: storeName, _searchScore: ... }] *)
Record Scored := {
  stored : Stored;
  _type : string;
  _searchScore : Z
}.

Definition stores : list string :=
  ["travelPins"; "people"; "journalEntries"; "expenses";
   "checklistItems"; "learningEntries"; "foodEntries"; "gearItems"].

(** The text that [universalSearch] filters on. *)
Definition searchableText (it : Stored) : string :=
  Js.toLowerCase
    (Js.join " "
       ([Js.or_empty (Search.title (fields it)); Js.or_empty (Search.name (fields it));
         Js.or_empty (Search.description (fields it));
         Js.or_empty (Search.content (fields it));
         Js.or_empty (Search.location (fields it)); Js.or_empty (notes it)]
          ++ Search.tags (fields it))).

(** [searchTerms.some(term => searchableText.includes(term))] *)
Definition matches (searchTerms : list string) (it : Stored) : bool :=
  existsb (fun term => Js.includes (searchableText it) term) searchTerms.

Definition term_score (it : Stored) (term : string) : Z :=
  let title :=
    Js.toLowerCase
      (Js.or_empty (Js.or_else (Search.title (fields it))
                               (Js.or_else (Search.name (fields it)) (Some "")))) in
  let description :=
    Js.toLowerCase
      (Js.or_empty (Js.or_else (Search.description (fields it))
                               (Js.or_else (Search.content (fields it)) (Some "")))) in
  ((if Js.includes title term then 3 else 0)
   + (if Js.includes description term then 1 else 0)
   + (if existsb (fun tag => Js.includes (Js.toLowerCase tag) term)
                 (Search.tags (fields it))
      then 2 else 0))%Z.

Definition calculateSearchScore (it : Stored) (searchTerms : list string) : Z :=
  fold_left (fun score term => (score + term_score it term)%Z) searchTerms 0%Z.

Section Store.

(** [this.getAll(storeName)], [None] when the read rejects. *)
Variable getAll : string -> option (list Stored).

(** [new Date(s).getTime()] *)
Variable timeOf : string -> Z.

(** [new Date(r.updatedAt || r.createdAt).getTime()] *)
Definition stamp (r : Scored) : Z :=
  timeOf (Js.or_empty
            (Js.or_else (Some (Search.updatedAt (fields (stored r))))
                        (Some (Search.createdAt (fields (stored r)))))).

(** The comparator of the final [sort]. *)
Definition compare_results (a b : Scored) : Z :=
  if negb (_searchScore a =? _searchScore b)%Z
  then (_searchScore b - _searchScore a)%Z
  else (stamp b - stamp a)%Z.

(** [Array.prototype.sort] with that comparator: stable. *)
Fixpoint insert_result (x : Scored) (l : list Scored) : list Scored :=
  match l with
  | [] => [x]
  | y :: rest =>
      if (0 <? compare_results x y)%Z then y :: insert_result x rest else x :: l
  end.

Definition sort_results (l : list Scored) : list Scored :=
  fold_right insert_result [] l.

(** The matching records of one store, tagged and scored. *)
Definition store_results (searchTerms : list string) (storeName : string)
           (items : list Stored) : list Scored :=
  map (fun it => {| stored := it; _type := storeName;
                    _searchScore := calculateSearchScore it searchTerms |})
      (filter (matches searchTerms) items).

(** The loop over the stores: the first read that rejects ends it. *)
Fixpoint collect (searchTerms : list string) (names : list string)
         (results : list Scored) : Try (list Scored) :=
  match names with
  | [] => Ok results
  | storeName :: rest =>
      match getAll storeName with
      | None => Raise "getAll rejected"
      | Some items =>
          collect searchTerms rest (results ++ store_results searchTerms storeName items)
      end
  end.

Definition universalSearch (query : string) : Try (list Scored) :=
  let searchTerms := Js.split " " (Js.toLowerCase query) in
  match collect searchTerms stores [] with
  | Ok results => Ok (sort_results results)
  | Raise e => Raise e
  end.

End Store.

(** The order of the final [sort] between a result and a later one: a
    higher score first, and among equal scores the later date first. *)
Definition ranked (timeOf : string -> Z) (a b : Scored) : Prop :=
  (_searchScore b < _searchScore a)%Z
  \/ (_searchScore b = _searchScore a /\ (stamp timeOf b <= stamp timeOf a)%Z).

End Database.

(** ** Predicates on texts *)

Module Text.

Fixpoint all_chars (p : ascii -> bool) (s : string) : bool :=
  match s with
  | EmptyString => true
  | String c s' => p c && all_chars p s'
  end.

(** The text has none of the characters [.], [!] and [?]. *)
Definition no_terminator (s : string) : bool :=
  all_chars (fun c => negb (Js.is_terminator c)) s.

End Text.

(** ** A small world to run the model in *)

Module Sample.

Import Search.

(** An analyzer that tags no word of any text. *)
Definition quiet_nlp (t : string) : NLP.Doc :=
  {| NLP.doc_text := t; NLP.doc_nouns := []; NLP.doc_adjectives := [];
     NLP.doc_people := []; NLP.doc_places := []; NLP.doc_organizations := [];
     NLP.doc_money := []; NLP.doc_dates := [] |}.

(** An analyzer for which every word between spaces is a noun. *)
Definition word_nlp (t : string) : NLP.Doc :=
  {| NLP.doc_text := t; NLP.doc_nouns := Js.split " " t; NLP.doc_adjectives := [];
     NLP.doc_people := []; NLP.doc_places := []; NLP.doc_organizations := [];
     NLP.doc_money := []; NLP.doc_dates := [] |}.

Definition ten_nouns : string :=
  "journal temple museum garden bridge castle market harbor island forest".

Definition record (i t d : string) : SearchableItem :=
  {| id := i; title := Some t; name := None; description := Some d; content := None;
     location := None; tags := []; _type := ""; createdAt := "2024-05-12T09:00:00.000Z";
     updatedAt := "2024-05-12T09:00:00.000Z"; searchableText := None |}.

Definition kinkaku : SearchableItem :=
  record "pin-1" "Golden temple in Kyoto" "Morning visit. Quiet garden!".

(** A journal entry whose description is one sentence of 176 characters. *)
Definition garden_walk : SearchableItem :=
  record "journal-7" "Garden walk"
    "We walked through the moss garden behind the temple for most of the morning and then sat by the pond watching the carp while the gardeners raked the gravel into long even lines".

Definition maria : SearchableItem :=
  {| id := "person-1"; title := None; name := Some "Maria"; description := None;
     content := None; location := Some "Kyoto"; tags := ["guide"]; _type := "";
     createdAt := "2024-05-10T09:00:00.000Z"; updatedAt := "2024-05-11T09:00:00.000Z";
     searchableText := None |}.

(** The record store: one pin, one person, and a [gearItems] store whose
    read rejects; the basic search of this store rejects with it. *)
Definition store_read (storeName : string) : option (list SearchableItem) :=
  if String.eqb storeName "travelPins" then Some [kinkaku]
  else if String.eqb storeName "people" then Some [maria]
  else if String.eqb storeName "gearItems" then None
  else Some [].

Definition hit (d : Q) (it : SearchableItem) : FuseResult :=
  {| fuse_item := it; fuse_score := Some d; fuse_matches := Some [Some "searchableText"] |}.

(** A stand-in for Fuse.js: the documents whose searchable text contains
    a word of the lowercased query, each at match distance [d]. *)
Definition toy_fuse (d : Q) (docs : list SearchableItem) (query : string) (limit : Z)
  : list FuseResult :=
  let words := Js.split " " (Js.toLowerCase query) in
  let hits :=
    map (hit d)
        (filter (fun it => existsb (Js.includes (Js.or_empty (searchableText it))) words)
                docs) in
  if (-1 <? limit)%Z then firstn (Z.to_nat limit) hits else hits.

Definition world : World :=
  {| nlp := quiet_nlp;
     fuse := toy_fuse (1 # 4);
     getAll := store_read;
     now := fun n => (1700000000000 + Z.of_nat n)%Z;
     flexAccepts := fun _ => true;
     universalSearch := fun _ => Raise "getAll rejected" |}.

(** The same world with the analyzer that takes every word for a noun. *)
Definition word_world : World :=
  {| nlp := word_nlp;
     fuse := toy_fuse (1 # 4);
     getAll := store_read;
     now := fun n => (1700000000000 + Z.of_nat n)%Z;
     flexAccepts := fun _ => true;
     universalSearch := fun _ => Raise "getAll rejected" |}.

Definition starts_upper (w : string) : bool :=
  match w with
  | String c _ => Js.is_upper c
  | EmptyString => false
  end.

(** An analyzer that takes the capitalized words of a text for nouns. *)
Definition proper_nlp (t : string) : NLP.Doc :=
  {| NLP.doc_text := t; NLP.doc_nouns := filter starts_upper (Js.split " " t);
     NLP.doc_adjectives := []; NLP.doc_people := []; NLP.doc_places := [];
     NLP.doc_organizations := []; NLP.doc_money := []; NLP.doc_dates := [] |}.

(** The same world with that analyzer: the term query of "Kyoto" is "kyoto",
    which has no search terms, so the third tier makes one nested search. *)
Definition proper_world : World :=
  {| nlp := proper_nlp;
     fuse := toy_fuse (1 # 4);
     getAll := store_read;
     now := fun n => (1700000000000 + Z.of_nat n)%Z;
     flexAccepts := fun _ => true;
     universalSearch := fun _ => Raise "getAll rejected" |}.

Definition run_state {A} (r : Run A) : State :=
  match r with
  | Returned _ st => st
  | Thrown _ st => st
  | Pending => initial
  end.

(** The service after [initialize()]. *)
Definition ready : State := run_state (initialize world initial).

(** An analyzer that knows one place, Kyoto, and tags nothing else. *)
Definition place_nlp (t : string) : NLP.Doc :=
  {| NLP.doc_text := t; NLP.doc_nouns := []; NLP.doc_adjectives := [];
     NLP.doc_people := [];
     NLP.doc_places := if Js.includes t "Kyoto" then ["Kyoto"] else [];
     NLP.doc_organizations := []; NLP.doc_money := []; NLP.doc_dates := [] |}.

Definition place_world : World :=
  {| nlp := place_nlp;
     fuse := toy_fuse (1 # 4);
     getAll := store_read;
     now := fun n => (1700000000000 + Z.of_nat n)%Z;
     flexAccepts := fun _ => true;
     universalSearch := fun _ => Raise "getAll rejected" |}.

(** The record store as the basic search reads it, every read succeeding. *)
Definition notebook (storeName : string) : option (list Database.Stored) :=
  if String.eqb storeName "travelPins"
  then Some [{| Database.fields := kinkaku; Database.notes := Some "Go early" |}]
  else if String.eqb storeName "people"
  then Some [{| Database.fields := maria; Database.notes := None |}]
  else Some [].

(** The same store with the rejecting [gearItems] read of [store_read]. *)
Definition broken_notebook (storeName : string) : option (list Database.Stored) :=
  if String.eqb storeName "gearItems" then None else notebook storeName.

(** The day of the month of the sample time stamps. *)
Definition day_of (s : string) : Z :=
  if String.eqb s "2024-05-12T09:00:00.000Z" then 12
  else if String.eqb s "2024-05-11T09:00:00.000Z" then 11
  else 0.

End Sample.

(** * Properties *)

(** ** Strings and sets *)

Lemma mem_In (x : string) (l : list string) : Js.mem x l = true <-> In x l.
Proof.
  unfold Js.mem. rewrite existsb_exists. split.
  - intros (y & Hy & E). apply String.eqb_eq in E. now subst.
  - intros H. exists x. split; [assumption | apply String.eqb_refl].
Qed.

Lemma set_add_In (x y : string) (l : list string) :
  In x (Js.set_add y l) <-> x = y \/ In x l.
Proof.
  unfold Js.set_add. destruct (Js.mem y l) eqn:E.
  - apply mem_In in E. split; [now right | intros [-> | H]; assumption].
  - rewrite in_app_iff. simpl. intuition congruence.
Qed.

Lemma add_lowered_In (keep : string -> bool) (texts acc : list string) (t : string) :
  In t (NLP.add_lowered keep texts acc) <->
  In t acc \/ exists n, In n texts /\ keep n = true /\ t = Js.toLowerCase n.
Proof.
  unfold NLP.add_lowered. revert acc. induction texts as [| n texts IH]; intros acc; simpl.
  - split; [now left | intros [H | (n & [] & _)]; assumption].
  - rewrite IH. destruct (keep n) eqn:K.
    + rewrite set_add_In. split.
      * intros [[-> | H] | (m & Hm & Km & ->)]; eauto 6.
      * intros [H | (m & [<- | Hm] & Km & ->)]; eauto 6.
    + split.
      * intros [H | (m & Hm & Km & ->)]; eauto 6.
      * intros [H | (m & [<- | Hm] & Km & ->)]; eauto 6. congruence.
Qed.

Lemma slice0_length {A} (n : Z) (l : list A) :
  (0 <= n)%Z -> (Z.of_nat (List.length (Js.slice0 n l)) <= n)%Z.
Proof.
  intros Hn. unfold Js.slice0.
  destruct (n <? 0)%Z eqn:E; [apply Z.ltb_lt in E; lia |].
  pose proof (firstn_le_length (Z.to_nat n) l). lia.
Qed.

Lemma slice0_firstn {A} (n : Z) (l : list A) :
  (0 <= n)%Z -> Js.slice0 n l = firstn (Z.to_nat n) l.
Proof.
  intros Hn. unfold Js.slice0.
  destruct (n <? 0)%Z eqn:E; [apply Z.ltb_lt in E; lia | reflexivity].
Qed.

Lemma prefix_iff (kw s : string) :
  prefix kw s = true <-> exists rest, s = (kw ++ rest)%string.
Proof.
  revert s. induction kw as [| c kw IH]; intros [| d s]; simpl.
  - split; [intros _; now exists EmptyString | reflexivity].
  - split; [intros _; now exists (String d s) | reflexivity].
  - split; [discriminate | intros (r & E); discriminate].
  - destruct (ascii_dec c d) as [-> | N].
    + rewrite IH. split; intros (r & E); exists r; [now rewrite E | now inversion E].
    + split; [discriminate | intros (r & E); inversion E; subst; now elim N].
Qed.

(** [includes] holds exactly of the strings that contain the keyword. *)
Lemma includes_iff (s kw : string) :
  Js.includes s kw = true <-> exists before after, s = (before ++ kw ++ after)%string.
Proof.
  induction s as [| c s IH]; cbn [Js.includes].
  - rewrite orb_false_r, prefix_iff. split.
    + intros (r & E). now exists EmptyString, r.
    + intros ([| ? ?] & after & E); [now exists after | discriminate].
  - rewrite orb_true_iff, prefix_iff, IH. split.
    + intros [(r & E) | (before & after & E)].
      * now exists EmptyString, r.
      * exists (String c before), after. simpl. now rewrite E.
    + intros ([| d before] & after & E).
      * left. now exists after.
      * right. exists before, after. now inversion E.
Qed.

Lemma toLowerCase_app (a b : string) :
  Js.toLowerCase (a ++ b) = (Js.toLowerCase a ++ Js.toLowerCase b)%string.
Proof. induction a as [| c a IH]; simpl; [reflexivity | now rewrite IH]. Qed.

Lemma toLowerCase_split (t x y : string) :
  Js.toLowerCase t = (x ++ y)%string ->
  exists t1 t2, t = (t1 ++ t2)%string /\ Js.toLowerCase t1 = x /\ Js.toLowerCase t2 = y.
Proof.
  revert t. induction x as [| c x IH]; intros t E; simpl in E.
  - now exists EmptyString, t.
  - destruct t as [| d t]; [discriminate |]. simpl in E. inversion E; subst.
    destruct (IH t H1) as (t1 & t2 & -> & <- & <-).
    now exists (String d t1), t2.
Qed.

(** A keyword occurs in the lowercased text exactly when some piece of the
    text is the keyword up to the case of its letters. *)
Lemma includes_ignoring_case (text kw : string) :
  Js.includes (Js.toLowerCase text) kw = true <->
  exists before piece after,
    text = (before ++ piece ++ after)%string /\ Js.toLowerCase piece = kw.
Proof.
  rewrite includes_iff. split.
  - intros (x & y & E). apply toLowerCase_split in E as (t1 & t2 & -> & _ & E).
    apply toLowerCase_split in E as (p & t3 & -> & E & _). now exists t1, p, t3.
  - intros (before & piece & after & -> & <-).
    exists (Js.toLowerCase before), (Js.toLowerCase after).
    now rewrite !toLowerCase_app.
Qed.

(** ** Text analyzer and query planner *)

Lemma some_keyword_iff (text : string) (keywords : list string) :
  NLP.some_keyword text keywords = true <->
  exists keyword, In keyword keywords /\ Js.includes text keyword = true.
Proof. unfold NLP.some_keyword. apply existsb_exists. Qed.

Lemma categories_fold (text : string) (table : list (string * list string))
      (acc : list string) (label : string) :
  In label
     (fold_left
        (fun categories entry =>
           if NLP.some_keyword text (snd entry) then categories ++ [fst entry]
           else categories) table acc) <->
  In label acc \/
  exists keywords, In (label, keywords) table /\ NLP.some_keyword text keywords = true.
Proof.
  revert acc. induction table as [| [l kws] table IH]; intros acc; simpl.
  - split; [now left | intros [H | (k & [] & _)]; assumption].
  - rewrite IH. destruct (NLP.some_keyword text kws) eqn:K.
    + rewrite in_app_iff. simpl. split.
      * intros [[H | [<- | []]] | (k & Hk & Sk)]; eauto 6.
      * intros [H | (k & [E | Hk] & Sk)]; eauto 6.
        inversion E; subst. left. right. now left.
    + split.
      * intros [H | (k & Hk & Sk)]; eauto 6.
      * intros [H | (k & [E | Hk] & Sk)]; eauto 6.
        inversion E; subst. congruence.
Qed.

Lemma topics_fold (text : string) (table : list (string * list string))
      (acc : list string) (label : string) :
  In label
     (fold_left
        (fun topics entry =>
           if NLP.some_keyword text (snd entry) then Js.set_add (fst entry) topics
           else topics) table acc) <->
  In label acc \/
  exists keywords, In (label, keywords) table /\ NLP.some_keyword text keywords = true.
Proof.
  revert acc. induction table as [| [l kws] table IH]; intros acc; simpl.
  - split; [now left | intros [H | (k & [] & _)]; assumption].
  - rewrite IH. destruct (NLP.some_keyword text kws) eqn:K.
    + rewrite set_add_In. split.
      * intros [[-> | H] | (k & Hk & Sk)]; eauto 6.
      * intros [H | (k & [E | Hk] & Sk)]; eauto 6.
        inversion E; subst. left. now left.
    + split.
      * intros [H | (k & Hk & Sk)]; eauto 6.
      * intros [H | (k & [E | Hk] & Sk)]; eauto 6.
        inversion E; subst. congruence.
Qed.

(** C3 (as stated, refuted): for "find cheap food" the planner sets no
    [type] filter at all, so the filter is not "food". *)
Lemma cheap_food_has_no_type :
  let filters := NLP.filters (NLP.parseSearchQuery Sample.quiet_nlp "find cheap food") in
  NLP.type filters = None /\ NLP.type filters <> Some "food".
Proof. split; [reflexivity | discriminate]. Qed.

(** C3 (amended): whatever the analyzer tags, [parseSearchQuery] of
    "find cheap food" yields the amount filter [{ max: 20 }] and no [type]
    filter, since none of the keywords temple, restaurant, museum, hotel and
    flight occurs in it; "find cheap restaurant" yields the type "food". *)
Theorem cheap_food_filters (nlp : string -> NLP.Doc) :
  let filters := NLP.filters (NLP.parseSearchQuery nlp "find cheap food") in
  NLP.amount filters = Some {| NLP.amount_min := None; NLP.amount_max := Some 20%Z |}
  /\ NLP.type filters = None
  /\ NLP.type (NLP.filters (NLP.parseSearchQuery nlp "find cheap restaurant")) = Some "food".
Proof. repeat split. Qed.

(** The [type] filter is absent exactly when no keyword of the table occurs
    in the lowercased query. *)
Lemma type_filter_none_iff (doc : NLP.Doc) (query : string) :
  NLP.type (NLP.extractFilters doc query) = None <->
  forall keyword type, In (keyword, type) NLP.typeKeywords ->
                       Js.includes (Js.toLowerCase query) keyword = false.
Proof.
  unfold NLP.extractFilters. cbn [NLP.type].
  generalize (Js.toLowerCase query) as text. intros text.
  assert (G : forall table acc,
             fold_left (fun (acc : option string) (entry : string * string) =>
                          if Js.includes text (fst entry) then Some (snd entry) else acc)
                       table acc = None <->
             acc = None /\ forall k t, In (k, t) table -> Js.includes text k = false).
  { induction table as [| [k t] table IH]; intros acc; simpl.
    - split; [intros ->; split; [reflexivity | intros ? ? []] | now intros [-> _]].
    - rewrite IH. destruct (Js.includes text k) eqn:E.
      + split; [intros [D _]; discriminate |].
        intros [_ H]. specialize (H k t (or_introl eq_refl)). congruence.
      + split.
        * intros [-> H]. split; [reflexivity |].
          intros k' t' [X | X]; [inversion X; subst; assumption | eauto].
        * intros [-> H]. split; [reflexivity | eauto]. }
  rewrite G. split; [now intros [_ H] | now split].
Qed.

(** C4 (as stated, refuted): "entertainment" is a category of a text about
    a movie but not one of its topics, and no text has it as a topic. *)
Lemma entertainment_is_no_topic :
  let doc := Sample.quiet_nlp "Catch a Movie downtown" in
  In "entertainment" (NLP.categorizeContent doc)
  /\ ~ In "entertainment" (NLP.extractTopics doc)
  /\ ~ exists d, In "entertainment" (NLP.extractTopics d).
Proof.
  split; [| split].
  - apply mem_In. vm_compute. reflexivity.
  - intros H. apply mem_In in H. vm_compute in H. discriminate.
  - intros (d & H). unfold NLP.extractTopics in H.
    apply topics_fold in H as [[] | (kws & Hk & _)].
    simpl in Hk. intuition discriminate.
Qed.

(** C4 (amended): a label is among the categories of a text exactly when
    a keyword that [categoryMap] lists for it occurs in the lowercased text
    (eight labels), and among its topics exactly when a keyword that
    [extractTopics] lists for it occurs there; the topic table has its own
    keyword sets and only the four labels travel, food, culture and nature. *)
Theorem topics_and_categories_by_keyword (doc : NLP.Doc) (label : string) :
  let text := Js.toLowerCase (NLP.doc_text doc) in
  (In label (NLP.categorizeContent doc) <->
   exists keywords keyword,
     In (label, keywords) NLP.categoryMap /\ In keyword keywords
     /\ Js.includes text keyword = true)
  /\ (In label (NLP.extractTopics doc) <->
      exists keywords keyword,
        In (label, keywords) NLP.topicMap /\ In keyword keywords
        /\ Js.includes text keyword = true)
  /\ map fst NLP.categoryMap =
       ["food"; "travel"; "culture"; "nature"; "adventure"; "entertainment";
        "shopping"; "transport"]
  /\ map fst NLP.topicMap = ["travel"; "food"; "culture"; "nature"].
Proof.
  intros text. split; [| split; [| split; reflexivity]].
  - unfold NLP.categorizeContent. fold text. rewrite categories_fold. split.
    + intros [[] | (kws & Hk & S)]. apply some_keyword_iff in S as (kw & Hkw & I).
      exists kws, kw. auto.
    + intros (kws & kw & Hk & Hkw & I). right. exists kws. split; [assumption |].
      apply some_keyword_iff. eauto.
  - unfold NLP.extractTopics. fold text. rewrite topics_fold. split.
    + intros [[] | (kws & Hk & S)]. apply some_keyword_iff in S as (kw & Hkw & I).
      exists kws, kw. auto.
    + intros (kws & kw & Hk & Hkw & I). right. exists kws. split; [assumption |].
      apply some_keyword_iff. eauto.
Qed.

(** Each of the eight labels is the category of some text. *)
Lemma every_category_reachable (label : string) :
  In label (map fst NLP.categoryMap) ->
  exists doc, In label (NLP.categorizeContent doc).
Proof.
  intros H.
  exists (Sample.quiet_nlp "food travel culture nature adventure movie shop transport").
  unfold NLP.categoryMap in H. simpl in H.
  repeat (destruct H as [H | H]; [subst label; apply mem_In; vm_compute; reflexivity |]).
  destruct H.
Qed.

Lemma noun_tags_In (doc : NLP.Doc) (t : string) :
  In t (NLP.noun_tags doc) <->
  exists n, In n (NLP.doc_nouns doc)
            /\ (3 <= String.length n <= 19)%nat /\ t = Js.toLowerCase n.
Proof.
  unfold NLP.noun_tags. rewrite add_lowered_In. unfold NLP.tag_length_ok. split.
  - intros [[] | (n & Hn & K & ->)]. exists n. repeat split; try assumption.
    + apply andb_true_iff in K as [K _]. apply Nat.ltb_lt in K. lia.
    + apply andb_true_iff in K as [_ K]. apply Nat.ltb_lt in K. lia.
  - intros (n & Hn & [L1 L2] & ->). right. exists n. repeat split; try assumption.
    apply andb_true_iff. split; apply Nat.ltb_lt; lia.
Qed.

(** C10 (as stated, refuted): ten distinct qualifying nouns, the first of
    which is the supplied type; the type is in the returned list. *)
Lemma type_among_the_nouns :
  (10 <= List.length (NLP.noun_tags (Sample.word_nlp Sample.ten_nouns)))%nat
  /\ NoDup (NLP.noun_tags (Sample.word_nlp Sample.ten_nouns))
  /\ In "journal" (NLP.generateTags Sample.word_nlp Sample.ten_nouns (Some "journal")).
Proof.
  split; [vm_compute; lia | split].
  - vm_compute. repeat constructor; simpl; intuition discriminate.
  - apply (proj1 (mem_In _ _)). vm_compute. reflexivity.
Qed.

Lemma set_add_NoDup (x : string) (l : list string) : NoDup l -> NoDup (Js.set_add x l).
Proof.
  intros H. unfold Js.set_add. destruct (Js.mem x l) eqn:M; [assumption |].
  apply NoDup_app; [assumption | repeat constructor; tauto |].
  intros a Ha [<- | []]. apply mem_In in Ha. congruence.
Qed.

Lemma add_lowered_NoDup (keep : string -> bool) (texts acc : list string) :
  NoDup acc -> NoDup (NLP.add_lowered keep texts acc).
Proof.
  unfold NLP.add_lowered. revert acc. induction texts as [| t texts IH]; intros acc H;
    simpl; [assumption |].
  apply IH. destruct (keep t); [now apply set_add_NoDup | assumption].
Qed.

Lemma add_all_NoDup (xs acc : list string) : NoDup acc -> NoDup (NLP.add_all xs acc).
Proof.
  unfold NLP.add_all. revert acc. induction xs as [| x xs IH]; intros acc H; simpl;
    [assumption |].
  apply IH. now apply set_add_NoDup.
Qed.

Lemma add_all_filter (xs acc : list string) :
  NoDup xs ->
  NLP.add_all xs acc = acc ++ filter (fun x => negb (Js.mem x acc)) xs.
Proof.
  unfold NLP.add_all. revert acc. induction xs as [| x xs IH]; intros acc H; simpl.
  - now rewrite app_nil_r.
  - inversion H as [| ? ? Hx Hxs]; subst. rewrite (IH _ Hxs). unfold Js.set_add.
    destruct (Js.mem x acc) eqn:M; simpl; [reflexivity |].
    rewrite <- app_assoc. simpl. f_equal. f_equal.
    apply filter_ext_in. intros y Hy. f_equal.
    unfold Js.mem. rewrite existsb_app. simpl. rewrite orb_false_r.
    destruct (String.eqb y x) eqn:E; [| apply orb_false_r].
    apply String.eqb_eq in E. subst. contradiction.
Qed.

Lemma add_all_In (xs acc : list string) (t : string) :
  In t (NLP.add_all xs acc) <-> In t acc \/ In t xs.
Proof.
  unfold NLP.add_all. revert acc. induction xs as [| x xs IH]; intros acc; simpl.
  - tauto.
  - rewrite IH, set_add_In. intuition congruence.
Qed.

Lemma extractTopics_NoDup (doc : NLP.Doc) : NoDup (NLP.extractTopics doc).
Proof.
  unfold NLP.extractTopics. generalize (Js.toLowerCase (NLP.doc_text doc)). intros text.
  assert (G : forall table acc,
             NoDup acc ->
             NoDup (fold_left
                      (fun topics (entry : string * list string) =>
                         if NLP.some_keyword text (snd entry)
                         then Js.set_add (fst entry) topics else topics) table acc)).
  { induction table as [| entry table IH]; intros acc H; simpl; [assumption |].
    apply IH. destruct (NLP.some_keyword text (snd entry));
      [now apply set_add_NoDup | assumption]. }
  apply G. constructor.
Qed.

Lemma categorizeContent_NoDup (doc : NLP.Doc) : NoDup (NLP.categorizeContent doc).
Proof.
  unfold NLP.categorizeContent. generalize (Js.toLowerCase (NLP.doc_text doc)). intros text.
  assert (G : forall table acc,
             NoDup (acc ++ map fst table) ->
             NoDup (fold_left
                      (fun categories (entry : string * list string) =>
                         if NLP.some_keyword text (snd entry)
                         then categories ++ [fst entry] else categories) table acc)).
  { induction table as [| entry table IH]; intros acc H; simpl in *.
    - now rewrite app_nil_r in H.
    - apply IH. destruct (NLP.some_keyword text (snd entry)).
      + now rewrite <- app_assoc.
      + now apply NoDup_remove_1 in H. }
  apply G. simpl. repeat constructor; simpl; intuition discriminate.
Qed.

(** C10 (amended): [generateTags] returns at most 10 tags.  The set it
    cuts holds first the tags of the qualifying nouns (3 to 19 characters,
    lowercased), then every topic that is not yet in the set, then the type
    unless it is there already, then every category not yet there: every
    noun tag, every topic, the type and every category is inserted, each
    once, and the cut to 10 comes last.  So when the nouns give 10 or more
    distinct tags the result is the first ten of them, and the supplied type
    is in it only if it is one of those ten. *)
Theorem generateTags_cap_and_order (nlp : string -> NLP.Doc) (text : string)
        (type : option string) :
  let doc := nlp text in
  let nouns := NLP.noun_tags doc in
  let withTopics :=
    nouns ++ filter (fun t => negb (Js.mem t nouns)) (NLP.extractTopics doc) in
  let withType :=
    withTopics ++ filter (fun t => negb (Js.mem t withTopics)) (NLP.type_tag type) in
  (List.length (NLP.generateTags nlp text type) <= 10)%nat
  /\ NLP.generateTags nlp text type = firstn 10 (NLP.tag_set nlp text type)
  /\ (forall t, In t nouns <->
                exists n, In n (NLP.doc_nouns doc)
                          /\ (3 <= String.length n <= 19)%nat /\ t = Js.toLowerCase n)
  /\ NLP.tag_set nlp text type =
       withType ++ filter (fun t => negb (Js.mem t withType)) (NLP.categorizeContent doc)
  /\ (forall t, In t (NLP.tag_set nlp text type) <->
                In t nouns \/ In t (NLP.extractTopics doc) \/ type = Some t /\ t <> ""
                \/ In t (NLP.categorizeContent doc))
  /\ NoDup (NLP.tag_set nlp text type)
  /\ ((10 <= List.length nouns)%nat ->
      NLP.generateTags nlp text type = firstn 10 nouns
      /\ forall t, type = Some t -> In t (NLP.generateTags nlp text type) ->
                   In t (firstn 10 nouns)).
Proof.
  intros doc nouns withTopics withType.
  assert (Tn : NoDup (NLP.type_tag type)).
  { destruct type as [[| c t] |]; simpl; repeat constructor; simpl; tauto. }
  assert (E : NLP.tag_set nlp text type =
              withType ++ filter (fun t => negb (Js.mem t withType))
                                 (NLP.categorizeContent doc)).
  { unfold NLP.tag_set. fold doc. fold nouns.
    rewrite (add_all_filter (NLP.extractTopics doc) nouns (extractTopics_NoDup doc)).
    fold withTopics. rewrite (add_all_filter (NLP.type_tag type) withTopics Tn).
    fold withType. apply add_all_filter, categorizeContent_NoDup. }
  assert (G : NLP.generateTags nlp text type = firstn 10 (NLP.tag_set nlp text type)).
  { unfold NLP.generateTags. now rewrite slice0_firstn by lia. }
  split; [| split; [exact G | split; [| split; [exact E | split; [| split]]]]].
  - unfold NLP.generateTags. pose proof (slice0_length 10 (NLP.tag_set nlp text type)). lia.
  - apply noun_tags_In.
  - intros t. unfold NLP.tag_set. fold doc. fold nouns. rewrite !add_all_In.
    assert (Ty : In t (NLP.type_tag type) <-> type = Some t /\ t <> "").
    { destruct type as [[| c u] |]; simpl.
      - split; [tauto | intros [X Y]; inversion X; subst; now apply Y].
      - split.
        + intros [<- | []]. split; [reflexivity | discriminate].
        + intros [X _]. inversion X. now left.
      - split; [tauto | intros [X _]; discriminate]. }
    rewrite Ty. tauto.
  - unfold NLP.tag_set. repeat apply add_all_NoDup.
    unfold NLP.noun_tags. apply add_lowered_NoDup. constructor.
  - intros Hlen.
    assert (F : NLP.generateTags nlp text type = firstn 10 nouns).
    { rewrite G, E. unfold withType, withTopics. rewrite <- !app_assoc.
      rewrite firstn_app.
      replace (10 - List.length nouns)%nat with 0%nat by lia.
      simpl. apply app_nil_r. }
    split; [exact F |]. intros t _ H. now rewrite <- F.
Qed.

Lemma generateTags_cap_and_order_witness :
  NLP.generateTags Sample.word_nlp Sample.ten_nouns (Some "trip") =
    ["journal"; "temple"; "museum"; "garden"; "bridge"; "castle"; "market";
     "harbor"; "island"; "forest"]
  /\ ~ In "trip" (NLP.generateTags Sample.word_nlp Sample.ten_nouns (Some "trip"))
  /\ NLP.generateTags Sample.word_nlp "temple garden" (Some "trip") =
       ["temple"; "garden"; "culture"; "trip"].
Proof.
  destruct (generateTags_cap_and_order Sample.word_nlp Sample.ten_nouns (Some "trip"))
    as (_ & _ & _ & _ & _ & _ & H).
  assert (L : (10 <= List.length (NLP.noun_tags (Sample.word_nlp Sample.ten_nouns)))%nat)
    by (vm_compute; lia).
  destruct (H L) as [G _]. split; [| split].
  - rewrite G. reflexivity.
  - rewrite G. intros X. apply mem_In in X. vm_compute in X. discriminate.
  - reflexivity.
Defined.

(** ** Snippets *)

Lemma length_append (a b : string) :
  String.length (a ++ b)%string = (String.length a + String.length b)%nat.
Proof. induction a as [| c a IH]; simpl; [reflexivity | now rewrite IH]. Qed.

Lemma length_substring_le (n : nat) (s : string) :
  (String.length (substring 0 n s) <= n)%nat.
Proof.
  revert s. induction n as [| n IH]; intros [| c s]; simpl; try lia.
  specialize (IH s). lia.
Qed.

Lemma length_substring_full (n : nat) (s : string) :
  (n <= String.length s)%nat -> String.length (substring 0 n s) = n.
Proof.
  revert s. induction n as [| n IH]; intros [| c s]; simpl; try lia.
  intros H. rewrite IH; lia.
Qed.

Lemma length_trimStart (s : string) :
  (String.length (Js.trimStart s) <= String.length s)%nat.
Proof.
  induction s as [| c s IH]; simpl; [lia |].
  destruct (Js.is_space c); simpl; lia.
Qed.

Lemma length_trimEnd (s : string) :
  (String.length (Js.trimEnd s) <= String.length s)%nat.
Proof.
  induction s as [| c s IH]; simpl; [lia |].
  destruct (Js.trimEnd s); [destruct (Js.is_space c) |]; simpl in *; lia.
Qed.

Lemma length_trim (s : string) :
  (String.length (Js.trim s) <= String.length s)%nat.
Proof.
  unfold Js.trim. pose proof (length_trimEnd (Js.trimStart s)).
  pose proof (length_trimStart s). lia.
Qed.

(** C7: the snippet never has more than 153 characters, and whenever the
    trimmed best sentence is cut at 150 characters the snippet is that cut
    followed by "...", 153 characters in all. *)
Theorem snippet_length (it : Search.SearchableItem) (query : string) :
  let best := Search.bestSentence it query in
  (String.length (Search.generateSnippet it query) <= 153)%nat
  /\ ((150 < String.length (Js.trim best))%nat ->
      Search.generateSnippet it query = (substring 0 150 (Js.trim best) ++ "...")%string
      /\ String.length (Search.generateSnippet it query) = 153%nat).
Proof.
  intros best. unfold Search.generateSnippet. fold best. split.
  - rewrite length_append. pose proof (length_substring_le 150 (Js.trim best)).
    destruct (150 <? String.length best)%nat; simpl; lia.
  - intros H. pose proof (length_trim best) as L.
    assert (E : (150 <? String.length best)%nat = true) by (apply Nat.ltb_lt; lia).
    rewrite E. split; [reflexivity |].
    rewrite length_append, length_substring_full by lia. reflexivity.
Qed.

Lemma snippet_length_witness :
  (150 < String.length (Js.trim (Search.bestSentence Sample.garden_walk "moss garden")))%nat
  /\ Search.generateSnippet Sample.garden_walk "moss garden" =
       (substring 0 150 (Js.trim (Search.bestSentence Sample.garden_walk "moss garden"))
          ++ "...")%string
  /\ String.length (Search.generateSnippet Sample.garden_walk "moss garden") = 153%nat.
Proof.
  assert (H : (150 < String.length
                       (Js.trim (Search.bestSentence Sample.garden_walk "moss garden")))%nat)
    by (apply Nat.ltb_lt; vm_compute; reflexivity).
  split; [exact H |].
  exact (proj2 (snippet_length Sample.garden_walk "moss garden") H).
Defined.

(** ** Index builder *)

Import Search.

Ltac run := unfold bind, ret, modify, get, throw, try_catch; simpl.

Lemma flex_add_frame (W : World) (docs : list SearchableItem) (st : State) :
  fuseInstances (fold_left (flex_add W) docs st) = fuseInstances st
  /\ lastIndexUpdate (fold_left (flex_add W) docs st) = lastIndexUpdate st
  /\ clock (fold_left (flex_add W) docs st) = clock st.
Proof.
  revert st. induction docs as [| d docs IH]; intros st; simpl; [auto |].
  destruct (IH (flex_add W st d)) as (A & B & C). rewrite A, B, C.
  unfold flex_add. destruct (searchIndex st); [destruct (flexAccepts W d) |]; auto.
Qed.

Lemma flex_add_docs (W : World) (docs indexed : list SearchableItem) (st : State) :
  searchIndex st = Some indexed ->
  searchIndex (fold_left (flex_add W) docs st) =
    Some (indexed ++ filter (flexAccepts W) docs).
Proof.
  revert indexed st. induction docs as [| d docs IH]; intros indexed st H; simpl.
  - now rewrite app_nil_r.
  - unfold flex_add at 2. rewrite H. destruct (flexAccepts W d).
    + erewrite IH by reflexivity. now rewrite <- app_assoc.
    + now apply IH.
Qed.

Lemma map_set_fresh {V} (key : string) (v : V) (m : list (string * V)) :
  ~ In key (map fst m) -> map_set key v m = m ++ [(key, v)].
Proof.
  induction m as [| [k w] m IH]; simpl; intros H; [reflexivity |].
  destruct (String.eqb_spec k key) as [-> | N]; [tauto |].
  rewrite IH; tauto.
Qed.

Lemma stores_NoDup : NoDup stores.
Proof. unfold stores. repeat constructor; simpl; intuition discriminate. Qed.

Lemma NoDup_firstn {A} (n : nat) (l : list A) : NoDup l -> NoDup (firstn n l).
Proof.
  intros H. rewrite <- (firstn_skipn n l) in H. now apply NoDup_app_remove_r in H.
Qed.

Lemma built_instances_keys (W : World) (names : list string) (s : string) :
  In s (map fst (built_instances W names)) -> In s names.
Proof.
  unfold built_instances. induction names as [| n names IH]; simpl; [tauto |].
  rewrite map_app, in_app_iff. destruct (getAll W n); simpl; intuition.
Qed.

(** The loop over the collections never throws; it appends one Fuse
    instance for each collection that could be read and adds the documents
    that FlexSearch accepts to the document index. *)
Lemma index_stores_spec (W : World) (names : list string) :
  NoDup names ->
  forall st indexed,
    (forall s, In s names -> ~ In s (map fst (fuseInstances st))) ->
    searchIndex st = Some indexed ->
    exists st',
      for_each names (index_store W) st = Returned tt st'
      /\ fuseInstances st' = fuseInstances st ++ built_instances W names
      /\ searchIndex st' =
           Some (indexed ++ filter (flexAccepts W) (flat_map (loaded W) names))
      /\ lastIndexUpdate st' = lastIndexUpdate st
      /\ clock st' = clock st.
Proof.
  induction 1 as [| n names Hn Hnd IH]; intros st indexed Hfresh Hidx.
  - exists st. simpl. rewrite !app_nil_r. auto.
  - cbn [for_each]. unfold bind at 1, index_store, try_catch, database_getAll.
    unfold built_instances, loaded. cbn [flat_map]. fold (built_instances W names).
    destruct (getAll W n) as [items |] eqn:G.
    + run.
      set (processed := map (processItem n) items).
      set (st1 := set_fuse n processed (fold_left (flex_add W) processed st)).
      destruct (flex_add_frame W processed st) as (F1 & F2 & F3).
      assert (E1 : fuseInstances st1 = fuseInstances st ++ [(n, processed)]).
      { unfold st1, set_fuse. cbn [fuseInstances]. rewrite F1.
        apply map_set_fresh. apply Hfresh. now left. }
      destruct (IH st1 (indexed ++ filter (flexAccepts W) processed)) as (st' & R & A & B & C & D).
      * intros s Hs. rewrite E1, map_app, in_app_iff. simpl.
        intros [X | [X | []]]; [apply (Hfresh s); [now right | assumption] |].
        subst s. contradiction.
      * unfold st1, set_fuse. cbn [searchIndex]. now apply flex_add_docs.
      * exists st'. split; [exact R |]. rewrite A, B, C, D, E1.
        unfold st1, set_fuse. cbn [lastIndexUpdate clock].
        rewrite F2, F3, <- !app_assoc, filter_app. simpl.
        fold (loaded W). auto.
    + run.
      destruct (IH st indexed) as (st' & R & A & B & C & D).
      * intros s Hs. apply Hfresh. now right.
      * assumption.
      * exists st'. split; [exact R |]. rewrite A, B. fold (loaded W). auto.
Qed.

(** Where a build stands when it is suspended at the read of collection
    number [k]: the old instances are gone and exactly the collections before
    [k] that could be read have theirs. *)
Lemma build_suspended_spec (W : World) (k : nat) (st : State) :
  exists st_k,
    build_suspended W k st = Returned tt st_k
    /\ fuseInstances st_k = built_instances W (firstn k stores)
    /\ searchIndex st_k =
         Some (filter (flexAccepts W) (flat_map (loaded W) (firstn k stores)))
    /\ lastIndexUpdate st_k = lastIndexUpdate st
    /\ clock st_k = clock st.
Proof.
  unfold build_suspended, reset_index. unfold bind at 1, modify.
  set (st0 := {| searchIndex := Some []; fuseInstances := [];
                 lastIndexUpdate := lastIndexUpdate st; clock := clock st |}).
  destruct (index_stores_spec W (firstn k stores) (NoDup_firstn k stores stores_NoDup)
                              st0 [])
    as (st' & R & A & B & C & D); [intros s _ [] | reflexivity |].
  exists st'. split; [exact R | auto].
Qed.

(** [buildSearchIndex] always returns: it is the suspended build run to the
    last collection, followed by the time stamp. *)
Lemma buildSearchIndex_spec (W : World) (st : State) :
  exists st',
    buildSearchIndex W st = Returned tt st'
    /\ fuseInstances st' = built_instances W stores
    /\ searchIndex st' = Some (filter (flexAccepts W) (flat_map (loaded W) stores))
    /\ lastIndexUpdate st' = now W (clock st)
    /\ clock st' = S (clock st).
Proof.
  destruct (build_suspended_spec W (List.length stores) st) as (st1 & R & A & B & C & D).
  rewrite firstn_all in A, B.
  unfold build_suspended in R. rewrite firstn_all in R.
  unfold buildSearchIndex.
  unfold bind at 1. unfold bind at 1 in R.
  destruct (reset_index st) as [[] st0 | |]; try discriminate.
  unfold bind at 1. rewrite R. unfold stamp_index, date_now. run.
  eexists. split; [reflexivity |]. cbn. rewrite D. auto.
Qed.


Lemma map_get_absent {V} (key : string) (m : list (string * V)) :
  ~ In key (map fst m) -> map_get key m = None.
Proof.
  induction m as [| [k w] m IH]; simpl; intros H; [reflexivity |].
  destruct (String.eqb_spec k key) as [-> | N]; [tauto |]. apply IH. tauto.
Qed.




(** ** Semantic search *)

(** C9: when the analyzer finds no person and no place in the query and
    the planner derives neither a location nor a person filter,
    [semanticSearch] returns the empty list, for every index state, every
    [modules] argument and every depth allowed to the nested searches. *)
Theorem semanticSearch_without_entities (W : World) (fuel : nat) (query : string)
        (modules : option (list string)) (st : State) :
  let parsedQuery := NLP.parseSearchQuery (nlp W) query in
  NLP.people (NLP.entities parsedQuery) = [] ->
  NLP.places (NLP.entities parsedQuery) = [] ->
  NLP.location (NLP.filters parsedQuery) = None ->
  NLP.person (NLP.filters parsedQuery) = None ->
  semanticSearch W fuel query modules st = Returned [] st.
Proof.
  intros parsedQuery Hpeople Hplaces Hloc Hper.
  unfold semanticSearch. fold parsedQuery. rewrite Hpeople, Hplaces.
  unfold searchByFilters. rewrite Hloc, Hper. reflexivity.
Qed.

Lemma semanticSearch_without_entities_witness :
  semanticSearch Sample.world 0 "temple in kyoto" (Some ["people"]) Sample.ready =
    Returned [] Sample.ready.
Proof.
  apply (semanticSearch_without_entities Sample.world 0 "temple in kyoto"
           (Some ["people"]) Sample.ready); reflexivity.
Defined.

(** ** Maps in insertion order *)

Lemma map_set_keys {V} (key : string) (v : V) (m : list (string * V)) :
  map fst (map_set key v m) = map fst m
  \/ (~ In key (map fst m) /\ map fst (map_set key v m) = map fst m ++ [key]).
Proof.
  induction m as [| [k w] m IH]; simpl.
  - right. split; [tauto | reflexivity].
  - destruct (String.eqb_spec k key) as [-> | N]; simpl; [now left |].
    destruct IH as [E | [A E]]; rewrite E; [now left |].
    right. split; [tauto | reflexivity].
Qed.

Lemma map_set_NoDup {V} (key : string) (v : V) (m : list (string * V)) :
  NoDup (map fst m) -> NoDup (map fst (map_set key v m)).
Proof.
  intros H. destruct (map_set_keys key v m) as [E | [A E]]; rewrite E; [assumption |].
  apply NoDup_app; [assumption | repeat constructor; tauto |].
  intros a Ha [<- | []]. contradiction.
Qed.

Lemma map_set_In {V} (key : string) (v : V) (m : list (string * V)) (k : string) (w : V) :
  In (k, w) (map_set key v m) -> (k, w) = (key, v) \/ In (k, w) m.
Proof.
  induction m as [| [k0 w0] m IH]; simpl.
  - intros [E | []]. left. now symmetry.
  - destruct (String.eqb_spec k0 key) as [-> | N]; simpl.
    + intros [E | H]; [left; now symmetry | right; now right].
    + intros [E | H]; [right; now left |]. destruct (IH H); auto.
Qed.

Lemma map_get_set_same {V} (key : string) (v : V) (m : list (string * V)) :
  map_get key (map_set key v m) = Some v.
Proof.
  induction m as [| [k w] m IH]; simpl.
  - now rewrite String.eqb_refl.
  - destruct (String.eqb_spec k key) as [-> | N]; simpl.
    + now rewrite String.eqb_refl.
    + destruct (String.eqb_spec k key); [contradiction | exact IH].
Qed.

Lemma map_get_set_other {V} (key k : string) (v : V) (m : list (string * V)) :
  k <> key -> map_get k (map_set key v m) = map_get k m.
Proof.
  intros N. induction m as [| [k0 w] m IH]; simpl.
  - destruct (String.eqb_spec key k); [congruence | reflexivity].
  - destruct (String.eqb_spec k0 key) as [-> | N0]; simpl.
    + destruct (String.eqb_spec key k); [congruence | reflexivity].
    + destruct (String.eqb_spec k0 k); [reflexivity | exact IH].
Qed.

Lemma map_get_In {V} (k : string) (v : V) (m : list (string * V)) :
  NoDup (map fst m) -> In (k, v) m -> map_get k m = Some v.
Proof.
  induction m as [| [k0 w] m IH]; simpl; intros Hnd H; [destruct H |].
  apply NoDup_cons_iff in Hnd as [Hk Hnd].
  destruct H as [E | H].
  - inversion E; subst. now rewrite String.eqb_refl.
  - destruct (String.eqb_spec k0 k) as [-> | N]; [| now apply IH].
    exfalso. apply Hk. change k with (fst (k, v)). now apply in_map.
Qed.

(** ** Scores *)

Lemma Qlt_bool_true (a b : Q) : Qlt_bool a b = true -> (a <= b)%Q.
Proof.
  unfold Qlt_bool. intros H. apply negb_true_iff in H.
  apply Qlt_le_weak, Qnot_le_lt. intros L. apply Qle_bool_iff in L. congruence.
Qed.

Lemma Qlt_bool_false (a b : Q) : Qlt_bool a b = false -> (b <= a)%Q.
Proof.
  unfold Qlt_bool. intros H. apply negb_false_iff in H. now apply Qle_bool_iff.
Qed.

(** ** Result fusion *)

Lemma merge_result_spec (m : ResultMap) (r : EnhancedSearchResult) :
  keyed m ->
  keyed (merge_result m r)
  /\ (forall k e, In (k, e) (merge_result m r) -> In (k, e) m \/ e = r)
  /\ (forall k e0, map_get k m = Some e0 ->
                   exists e, map_get k (merge_result m r) = Some e
                             /\ (_score e0 <= _score e)%Q)
  /\ exists e, map_get (result_key r) (merge_result m r) = Some e
               /\ (_score r <= _score e)%Q.
Proof.
  intros [Hnd Hk]. unfold merge_result, absent_or_below.
  destruct (map_get (result_key r) m) as [e0 |] eqn:G.
  - destruct (Qlt_bool (_score e0) (_score r)) eqn:L.
    + split; [split; [now apply map_set_NoDup |] |].
      { intros k e H. apply map_set_In in H as [E | H]; [now inversion E | auto]. }
      split; [intros k e H; apply map_set_In in H as [E | H];
              [right; now inversion E | now left] |].
      split.
      * intros k e1 H1. destruct (String.eqb_spec k (result_key r)) as [-> | N].
        -- rewrite map_get_set_same. exists r. split; [reflexivity |].
           rewrite G in H1. inversion H1; subst. now apply Qlt_bool_true.
        -- rewrite map_get_set_other by assumption. exists e1. split; [assumption |].
           apply Qle_refl.
      * exists r. rewrite map_get_set_same. split; [reflexivity | apply Qle_refl].
    + split; [now split |]. split; [auto |]. split.
      * intros k e1 H1. exists e1. split; [assumption | apply Qle_refl].
      * exists e0. split; [assumption | now apply Qlt_bool_false].
  - split; [split; [now apply map_set_NoDup |] |].
    { intros k e H. apply map_set_In in H as [E | H]; [now inversion E | auto]. }
    split; [intros k e H; apply map_set_In in H as [E | H];
            [right; now inversion E | now left] |].
    split.
    + intros k e1 H1. destruct (String.eqb_spec k (result_key r)) as [-> | N].
      * congruence.
      * rewrite map_get_set_other by assumption. exists e1. split; [assumption |].
        apply Qle_refl.
    + exists r. rewrite map_get_set_same. split; [reflexivity | apply Qle_refl].
Qed.

Lemma merge_fold_spec (l : list EnhancedSearchResult) (m : ResultMap) :
  keyed m ->
  keyed (fold_left merge_result l m)
  /\ (forall k e, In (k, e) (fold_left merge_result l m) -> In (k, e) m \/ In e l)
  /\ (forall k e0, map_get k m = Some e0 ->
                   exists e, map_get k (fold_left merge_result l m) = Some e
                             /\ (_score e0 <= _score e)%Q)
  /\ forall c, In c l ->
               exists e, map_get (result_key c) (fold_left merge_result l m) = Some e
                         /\ (_score c <= _score e)%Q.
Proof.
  revert m. induction l as [| r l IH]; intros m Hm; simpl.
  - split; [assumption |]. split; [auto |]. split.
    + intros k e0 H. exists e0. split; [assumption | apply Qle_refl].
    + intros c [].
  - destruct (merge_result_spec m r Hm) as (K1 & I1 & G1 & S1).
    destruct (IH (merge_result m r) K1) as (K2 & I2 & G2 & S2).
    split; [assumption |]. split; [| split].
    + intros k e H. destruct (I2 k e H) as [X | X]; [| auto].
      destruct (I1 k e X) as [Y | ->]; auto.
    + intros k e0 H. destruct (G1 k e0 H) as (e1 & H1 & L1).
      destruct (G2 k e1 H1) as (e2 & H2 & L2).
      exists e2. split; [assumption | eapply Qle_trans; eassumption].
    + intros c [<- | Hc]; [| now apply S2].
      destruct S1 as (e1 & H1 & L1). destruct (G2 _ e1 H1) as (e2 & H2 & L2).
      exists e2. split; [assumption | eapply Qle_trans; eassumption].
Qed.

(** ** Sorting and cutting *)

Lemma insert_desc_perm (x : EnhancedSearchResult) (l : list EnhancedSearchResult) :
  Permutation (insert_desc x l) (x :: l).
Proof.
  induction l as [| y l IH]; simpl; [reflexivity |].
  destruct (Qlt_bool (_score x) (_score y)); [| reflexivity].
  rewrite IH. apply perm_swap.
Qed.

Lemma sort_desc_perm (l : list EnhancedSearchResult) : Permutation (sort_desc l) l.
Proof.
  unfold sort_desc. induction l as [| x l IH]; simpl; [reflexivity |].
  rewrite insert_desc_perm. now constructor.
Qed.

Lemma firstn_incl {A} (n : nat) (l : list A) (x : A) : In x (firstn n l) -> In x l.
Proof.
  intros H. rewrite <- (firstn_skipn n l). apply in_or_app. now left.
Qed.

Lemma slice0_incl {A} (n : Z) (l : list A) (x : A) : In x (Js.slice0 n l) -> In x l.
Proof. unfold Js.slice0. destruct (n <? 0)%Z; apply firstn_incl. Qed.

(** ** The index that a search goes through *)

Lemma key_of_inj (m i1 i2 : string) : key_of m i1 = key_of m i2 -> i1 = i2.
Proof.
  unfold key_of. induction m as [| c m IH]; simpl; intros H.
  - now inversion H.
  - inversion H. auto.
Qed.

Lemma key_of_module (m1 m2 i1 i2 : string) :
  no_hyphen m1 = true -> no_hyphen m2 = true ->
  key_of m1 i1 = key_of m2 i2 -> m1 = m2.
Proof.
  unfold key_of. revert m2. induction m1 as [| c1 m1 IH]; intros [| c2 m2]; simpl;
    intros H1 H2 E.
  - reflexivity.
  - inversion E; subst. simpl in H2. discriminate.
  - inversion E; subst. simpl in H1. discriminate.
  - inversion E; subst.
    apply andb_true_iff in H1 as [_ H1]. apply andb_true_iff in H2 as [_ H2].
    f_equal. now apply IH.
Qed.

Lemma stores_no_hyphen (s : string) : In s stores -> no_hyphen s = true.
Proof.
  assert (H : forallb no_hyphen stores = true) by reflexivity.
  rewrite forallb_forall in H. apply H.
Qed.

Lemma built_instances_In (W : World) (names : list string) (m : string)
      (docs : list SearchableItem) :
  In (m, docs) (built_instances W names) ->
  In m names /\ exists items, getAll W m = Some items /\ docs = map (processItem m) items.
Proof.
  unfold built_instances. intros H. apply in_flat_map in H as (s & Hs & H).
  destruct (getAll W s) as [items |] eqn:G; [| destruct H].
  destruct H as [E | []]. inversion E; subst. eauto.
Qed.

Lemma built_instances_NoDup (W : World) (names : list string) :
  NoDup names -> NoDup (map fst (built_instances W names)).
Proof.
  induction 1 as [| n names Hn Hnd IH]; simpl; [constructor |].
  rewrite map_app. apply NoDup_app; [| assumption |].
  - destruct (getAll W n); simpl; repeat constructor. tauto.
  - intros a Ha Hb. apply built_instances_keys in Hb.
    destruct (getAll W n); simpl in Ha; [| destruct Ha].
    destruct Ha as [<- | []]. contradiction.
Qed.

(** A build from a store with distinct identifiers leaves a well-formed
    index, and so does the service as first constructed. *)
Lemma wf_index_built (W : World) :
  store_ids_unique W -> wf_index (built_instances W stores).
Proof.
  intros Hids. split; [apply built_instances_NoDup, stores_NoDup |].
  intros m docs H. apply built_instances_In in H as (Hm & items & G & ->).
  split; [now apply stores_no_hyphen |]. split.
  - rewrite map_map. simpl. change (map (fun x => id x) items) with (map id items).
    eapply Hids; eassumption.
  - intros d Hd. apply in_map_iff in Hd as (d0 & <- & _). reflexivity.
Qed.

Lemma wf_index_initial : wf_index (fuseInstances initial).
Proof. split; [constructor | intros ? ? []]. Qed.

Lemma refresh_spec (W : World) (st : State) :
  exists st1,
    refresh_if_stale W st = Returned tt st1
    /\ (fuseInstances st1 = fuseInstances st
        \/ fuseInstances st1 = built_instances W stores).
Proof.
  unfold refresh_if_stale, date_now. run.
  match goal with |- context [if ?c then _ else _] => destruct c end.
  - match goal with |- context [buildSearchIndex W ?s] =>
                    destruct (buildSearchIndex_spec W s) as (st1 & R & A & _) end.
    exists st1. auto.
  - eexists. split; [reflexivity |]. now left.
Qed.

Lemma refresh_wf (W : World) (st st1 : State) :
  store_ids_unique W ->
  wf_index (fuseInstances st) ->
  refresh_if_stale W st = Returned tt st1 ->
  wf_index (fuseInstances st1).
Proof.
  intros Hids Hwf R. destruct (refresh_spec W st) as (st2 & R2 & [E | E]).
  - rewrite R in R2. inversion R2; subst. now rewrite E.
  - rewrite R in R2. inversion R2; subst. rewrite E. now apply wf_index_built.
Qed.

(** ** The fuzzy tier *)

Lemma fold_left_over_map {A B C} (f : A -> C -> A) (g : B -> C) (l : list B) (a : A) :
  fold_left f (map g l) a = fold_left (fun acc x => f acc (g x)) l a.
Proof. revert a. induction l as [| x l IH]; intros a; simpl; [reflexivity | apply IH]. Qed.

(** The two nested loops of the tier are one pass over its hits. *)
Lemma fuzzy_tier_hits (W : World) (modules : option (list string)) (limit : Z)
      (threshold : Q) (query : string) (instances : list (string * list SearchableItem))
      (acc : ResultMap) :
  fuzzy_tier W modules limit threshold query instances acc =
    fold_left (fun results mh => fuzzy_add (fst mh) query threshold results (snd mh))
              (fuzzy_hits W modules limit query instances) acc.
Proof.
  unfold fuzzy_tier, fuzzy_hits. revert acc.
  induction instances as [| [m docs] instances IH]; intros acc; simpl; [reflexivity |].
  rewrite fold_left_app, IH. destruct (excluded modules m); simpl; [reflexivity |].
  now rewrite fold_left_over_map.
Qed.

Lemma fuzzy_hits_In (W : World) (modules : option (list string)) (limit : Z)
      (query : string) (instances : list (string * list SearchableItem))
      (mh : string * FuseResult) :
  In mh (fuzzy_hits W modules limit query instances) ->
  exists docs, In (fst mh, docs) instances /\ In (snd mh) (fuse W docs query limit).
Proof.
  unfold fuzzy_hits. intros H. apply in_flat_map in H as ([m docs] & Hi & H).
  simpl in H. destruct (excluded modules m); [destruct H |].
  apply in_map_iff in H as (hit & <- & Hh). exists docs. auto.
Qed.

(** Every entry that the tier files passed the threshold test on its
    similarity, and carries that similarity scaled by 0.8. *)
Lemma fuzzy_fold_threshold (query : string) (threshold : Q)
      (hits : list (string * FuseResult)) (acc : ResultMap) (k : string)
      (e : EnhancedSearchResult) :
  In (k, e)
     (fold_left (fun results mh => fuzzy_add (fst mh) query threshold results (snd mh))
                hits acc) ->
  In (k, e) acc
  \/ exists mh, In mh hits /\ e = fuzzy_entry query (snd mh)
                /\ (threshold <= similarity (snd mh))%Q.
Proof.
  revert acc. induction hits as [| mh hits IH]; intros acc H; simpl in H; [now left |].
  apply IH in H as [H | (mh' & Hm & E & L)]; [| right; exists mh'; simpl; auto].
  unfold fuzzy_add in H.
  destruct (Qle_bool threshold (similarity (snd mh))) eqn:T; simpl in H; [| now left].
  destruct (absent_or_below _ _ acc); [| now left].
  apply map_set_In in H as [E | H]; [| now left].
  right. exists mh. inversion E; subst. split; [now left |].
  split; [reflexivity | now apply Qle_bool_iff].
Qed.

(** When no two hits have the same key, the tier files exactly its
    candidates, in the order it meets them. *)
Lemma fuzzy_fold_fresh (query : string) (threshold : Q)
      (hits : list (string * FuseResult)) (acc : ResultMap) :
  NoDup (map hit_key hits) ->
  (forall mh, In mh hits -> ~ In (hit_key mh) (map fst acc)) ->
  fold_left (fun results mh => fuzzy_add (fst mh) query threshold results (snd mh))
            hits acc =
    acc ++ map (fun mh => (hit_key mh, fuzzy_entry query (snd mh)))
               (filter (fun mh => Qle_bool threshold (similarity (snd mh))) hits).
Proof.
  revert acc. induction hits as [| mh hits IH]; intros acc Hnd Hfresh; simpl.
  - now rewrite app_nil_r.
  - simpl in Hnd. apply NoDup_cons_iff in Hnd as [Hk Hnd].
    assert (F : ~ In (hit_key mh) (map fst acc)) by (apply Hfresh; now left).
    unfold fuzzy_add at 2. fold (hit_key mh). unfold absent_or_below.
    rewrite (map_get_absent _ _ F).
    destruct (Qle_bool threshold (similarity (snd mh))); simpl.
    + rewrite (map_set_fresh _ _ _ F). rewrite IH; [now rewrite <- app_assoc | assumption |].
      intros mh' Hm. rewrite map_app, in_app_iff. simpl.
      intros [X | [X | []]]; [apply (Hfresh mh'); [now right | assumption] |].
      apply Hk. rewrite X. now apply in_map.
    + apply IH; [assumption |]. intros mh' Hm. apply Hfresh. now right.
Qed.

Lemma NoDup_map_inj {A B} (key : A -> B) (hits : list A) :
  NoDup hits ->
  (forall x y, In x hits -> In y hits -> key x = key y -> x = y) ->
  NoDup (map key hits).
Proof.
  intros Hnd. induction Hnd as [| a hits Ha Hnd IH]; simpl; intros Hinj; [constructor |].
  constructor.
  - intros H. apply in_map_iff in H as (b & E & Hb).
    apply Hinj in E; [subst; contradiction | now right | now left].
  - apply IH. intros x y Hx Hy. apply Hinj; now right.
Qed.

Lemma wf_index_tail (inst : string * list SearchableItem)
      (instances : list (string * list SearchableItem)) :
  wf_index (inst :: instances) -> wf_index instances.
Proof.
  intros [Hnd H]. simpl in Hnd. apply NoDup_cons_iff in Hnd as [_ Hnd].
  split; [assumption |]. intros m docs Hm. apply H. now right.
Qed.

(** In a well-formed index searched with a faithful Fuse, no two hits of
    the tier have the same key. *)
Lemma hit_keys_NoDup (W : World) (modules : option (list string)) (limit : Z)
      (query : string) (instances : list (string * list SearchableItem)) :
  fuse_faithful W -> wf_index instances ->
  NoDup (map hit_key (fuzzy_hits W modules limit query instances)).
Proof.
  intros Hf. induction instances as [| [m docs] instances IH]; intros Hwf;
    [constructor |].
  pose proof (wf_index_tail _ _ Hwf) as Hwf'.
  destruct Hwf as [Hnd Hall]. simpl in Hnd. apply NoDup_cons_iff in Hnd as [Hm Hnd].
  destruct (Hall m docs (or_introl eq_refl)) as (Hh & Hids & _).
  change (fuzzy_hits W modules limit query ((m, docs) :: instances))
    with ((if excluded modules m then []
           else map (fun hit => (m, hit)) (fuse W docs query limit))
            ++ fuzzy_hits W modules limit query instances).
  rewrite map_app. apply NoDup_app; [| now apply IH |].
  - destruct (excluded modules m); [constructor |].
    rewrite map_map. unfold hit_key. simpl.
    rewrite <- (map_map (fun hit => id (fuse_item hit)) (key_of m)).
    apply NoDup_map_inj; [| intros x y _ _; apply key_of_inj].
    now apply (Hf docs query limit).
  - intros k Hk Hk'.
    destruct (excluded modules m); [destruct Hk |].
    apply in_map_iff in Hk as (mh & <- & Hmh).
    apply in_map_iff in Hmh as (hit & <- & _).
    apply in_map_iff in Hk' as (mh' & E & Hmh').
    apply fuzzy_hits_In in Hmh' as (docs' & Hin & _).
    destruct (Hall (fst mh') docs' (or_intror Hin)) as (Hh' & _).
    unfold hit_key in E. simpl in E. apply key_of_module in E; [| assumption ..].
    apply Hm. rewrite <- E. change (fst mh') with (fst (fst mh', docs')).
    now apply in_map.
Qed.

(** The map that the fuzzy tier leaves: its candidates, each under its key. *)
Lemma fuzzy_tier_candidates (W : World) (modules : option (list string)) (limit : Z)
      (threshold : Q) (query : string) (instances : list (string * list SearchableItem)) :
  fuse_faithful W -> wf_index instances ->
  let results := fuzzy_tier W modules limit threshold query instances [] in
  keyed results
  /\ map snd results = fuzzy_candidates W modules limit threshold query instances.
Proof.
  intros Hf Hwf results. unfold results.
  rewrite fuzzy_tier_hits, fuzzy_fold_fresh;
    [| now apply hit_keys_NoDup | intros ? _ []].
  simpl. unfold fuzzy_candidates.
  set (kept := filter _ (fuzzy_hits W modules limit query instances)).
  assert (Hkept : forall mh, In mh kept ->
                             In mh (fuzzy_hits W modules limit query instances)).
  { intros mh H. unfold kept in H. now apply filter_In in H as [H _]. }
  split; [split |].
  - rewrite map_map. simpl.
    pose proof (hit_keys_NoDup W modules limit query instances Hf Hwf) as Hnd.
    unfold kept. clear - Hnd.
    induction (fuzzy_hits W modules limit query instances) as [| mh l IH];
      [constructor |].
    simpl in Hnd. apply NoDup_cons_iff in Hnd as [Hk Hnd]. simpl.
    destruct (Qle_bool threshold (similarity (snd mh))); [| now apply IH].
    simpl. constructor; [| now apply IH].
    intros X. apply Hk. apply in_map_iff in X as (mh' & E & X).
    apply filter_In in X as [X _]. rewrite <- E. now apply in_map.
  - intros k e H. apply in_map_iff in H as (mh & E & Hmh). inversion E; subst.
    apply Hkept, fuzzy_hits_In in Hmh as (docs & Hin & Hhit).
    destruct Hwf as [_ Hall]. destruct (Hall _ _ Hin) as (_ & _ & Ht).
    unfold hit_key, result_key. simpl. f_equal. symmetry. apply Ht.
    now apply (Hf docs query limit).
  - rewrite map_map. reflexivity.
Qed.

(** ** The shape of a search that returns *)

Lemma search_unfold (W : World) (fuel : nat) (query : string) (options : option Options)
      (st st' : State) (res : list EnhancedSearchResult) :
  search W (S fuel) query options st = Returned res st' ->
  exists st1 nlpResults,
    refresh_if_stale W st = Returned tt st1
    /\ searchWithNLP (search W fuel) (NLP.parseSearchQuery (nlp W) query)
                     (modules_of options) st1 = Returned nlpResults st'
    /\ res = Js.slice0 (limit_of options)
               (sort_desc
                  (map snd
                     (fold_left merge_result nlpResults
                        (fuzzy_tier W (modules_of options) (limit_of options)
                                    (threshold_of options) query (fuseInstances st1) [])))).
Proof.
  cbn [search]. unfold bind at 1.
  destruct (refresh_spec W st) as (st1 & R & _). rewrite R.
  unfold bind at 1. unfold get at 1. unfold bind at 1.
  destruct (searchWithNLP _ _ _ st1) as [nlpResults st2 | |] eqn:N; try discriminate.
  unfold ret. intros H. inversion H; subst. exists st1, nlpResults. auto.
Qed.

(** ** The sample world is well-formed *)

Lemma NoDup_map_filter {A B} (key : A -> B) (keep : A -> bool) (docs : list A) :
  NoDup (map key docs) -> NoDup (map key (filter keep docs)).
Proof.
  intros H. induction docs as [| a docs IH]; simpl in *; [constructor |].
  apply NoDup_cons_iff in H as [Ha H]. destruct (keep a); simpl; [| now apply IH].
  constructor; [| now apply IH].
  intros X. apply Ha. apply in_map_iff in X as (b & E & X).
  apply filter_In in X as [X _]. rewrite <- E. now apply in_map.
Qed.

Lemma toy_fuse_faithful (d : Q) (W : World) :
  fuse W = Sample.toy_fuse d -> fuse_faithful W.
Proof.
  intros E docs query limit. rewrite E. unfold Sample.toy_fuse.
  set (p := fun it : SearchableItem => existsb _ _).
  assert (A : forall hit, In hit (map (Sample.hit d) (filter p docs)) ->
                          In (fuse_item hit) docs).
  { intros hit H. apply in_map_iff in H as (it & <- & H).
    now apply filter_In in H as [H _]. }
  assert (B : NoDup (map id docs) ->
              NoDup (map (fun hit => id (fuse_item hit))
                         (map (Sample.hit d) (filter p docs)))).
  { intros H. rewrite map_map. simpl. now apply NoDup_map_filter. }
  destruct (-1 <? limit)%Z; split; auto.
  - intros hit H. apply A. eapply firstn_incl. eassumption.
  - intros H. rewrite <- firstn_map. apply NoDup_firstn. auto.
Qed.

Lemma sample_ids_unique : store_ids_unique Sample.world.
Proof.
  intros storeName items. simpl. unfold Sample.store_read.
  destruct (String.eqb storeName "travelPins");
    [intros E; inversion E; repeat constructor; simpl; tauto |].
  destruct (String.eqb storeName "people");
    [intros E; inversion E; repeat constructor; simpl; tauto |].
  destruct (String.eqb storeName "gearItems"); [discriminate |].
  intros E. inversion E. constructor.
Qed.

Lemma sample_ready_wf : wf_index (fuseInstances Sample.ready).
Proof.
  unfold Sample.ready, initialize.
  destruct (buildSearchIndex_spec Sample.world initial) as (st' & R & A & _).
  rewrite R. simpl. rewrite A. apply wf_index_built, sample_ids_unique.
Qed.

(** ** Retrieval *)

Lemma merge_fold_In (l : list EnhancedSearchResult) (m : ResultMap) (k : string)
      (e : EnhancedSearchResult) :
  In (k, e) (fold_left merge_result l m) -> In (k, e) m \/ In e l.
Proof.
  revert m. induction l as [| c l IH]; intros m H; simpl in H; [now left |].
  apply IH in H as [H | H]; [| right; now right].
  unfold merge_result in H. destruct (absent_or_below _ _ m); [| now left].
  apply map_set_In in H as [E | H]; [| now left].
  right. left. now inversion E.
Qed.

(** C2 (as stated, refuted): with the threshold 0.75 a hit at distance
    0.25 is kept, since its similarity 0.75 meets the threshold, and is
    returned with the score 0.6, below the threshold. *)
Lemma kept_below_threshold :
  let options := Some {| modules := None; limit := None; threshold := Some (3 # 4) |} in
  exists e st',
    search Sample.world 1 "temple" options Sample.ready = Returned [e] st'
    /\ nlp_candidates Sample.world 0 "temple" options Sample.ready = []
    /\ (_score e == 6 # 10)%Q
    /\ (_score e < threshold_of options)%Q.
Proof.
  eexists. eexists. split; [vm_compute; reflexivity |].
  split; [vm_compute; reflexivity |]. split; vm_compute; reflexivity.
Qed.

(** C2 (amended): the fuzzy tier computes the similarity of a hit as 1
    minus its match distance, keeps the hit only if that similarity, before
    scaling, is at least [options.threshold] (default 0.3), and files it with
    the similarity scaled by 0.8; hence every entry of the returned list that
    is not a result of the third tier has [_score >= 0.8 * threshold]. *)
Theorem fuzzy_threshold_on_similarity (W : World) (fuel : nat) (query : string)
        (options : option Options) (st st' : State) (res : list EnhancedSearchResult) :
  search W (S fuel) query options st = Returned res st' ->
  threshold_of None = (3 # 10)%Q
  /\ forall r, In r res ->
       In r (nlp_candidates W fuel query options st)
       \/ exists hit,
            r = fuzzy_entry query hit
            /\ (forall d, fuse_score hit = Some d -> similarity hit = (1 - d)%Q)
            /\ (threshold_of options <= similarity hit)%Q
            /\ _score r = (similarity hit * (8 # 10))%Q
            /\ (threshold_of options * (8 # 10) <= _score r)%Q.
Proof.
  intros H. split; [reflexivity |]. intros r Hr.
  apply search_unfold in H as (st1 & nlpResults & R & N & ->).
  apply slice0_incl in Hr.
  apply (Permutation_in _ (sort_desc_perm _)) in Hr.
  apply in_map_iff in Hr as ([k e] & E & Hr). simpl in E. subst e.
  assert (Cases : In (k, r) (fuzzy_tier W (modules_of options) (limit_of options)
                                         (threshold_of options) query
                                         (fuseInstances st1) [])
                  \/ In r nlpResults).
  { apply merge_fold_In in Hr. exact Hr. }
  destruct Cases as [Hf | Hn].
  - right. rewrite fuzzy_tier_hits in Hf.
    apply fuzzy_fold_threshold in Hf as [[] | (mh & _ & -> & L)].
    exists (snd mh). split; [reflexivity |]. split.
    + intros d Hd. unfold similarity. now rewrite Hd.
    + split; [assumption |]. split; [reflexivity |].
      simpl. apply Qmult_le_compat_r; [assumption | discriminate].
  - left. unfold nlp_candidates. rewrite R, N. assumption.
Qed.

Lemma fuzzy_threshold_on_similarity_witness :
  exists r,
    results_of (search Sample.world 1 "temple"
                       (Some {| modules := None; limit := None; threshold := Some (3 # 4) |})
                       Sample.ready) = [r]
    /\ ((3 # 4) * (8 # 10) <= _score r)%Q.
Proof.
  set (options := Some {| modules := None; limit := None; threshold := Some (3 # 4) |}).
  assert (E : search Sample.world 1 "temple" options Sample.ready =
              Returned (results_of (search Sample.world 1 "temple" options Sample.ready))
                       (Sample.run_state
                          (search Sample.world 1 "temple" options Sample.ready)))
    by (vm_compute; reflexivity).
  destruct (fuzzy_threshold_on_similarity Sample.world 0 "temple" options Sample.ready
              _ _ E) as [_ H].
  destruct (results_of (search Sample.world 1 "temple" options Sample.ready))
    as [| r [| r' l]] eqn:R; try (vm_compute in R; discriminate).
  exists r. split; [reflexivity |].
  destruct (H r (or_introl eq_refl)) as [X | (hit & _ & _ & _ & _ & L)]; [| exact L].
  vm_compute in X. destruct X.
Defined.

Lemma NoDup_map_factor {A B C} (f : A -> B) (g : B -> C) (h : A -> C) (l : list A) :
  (forall x, h x = g (f x)) -> NoDup (map h l) -> NoDup (map f l).
Proof.
  intros E H. apply (NoDup_map_inv g). rewrite map_map.
  erewrite map_ext; [exact H |]. intros x. symmetry. apply E.
Qed.

Lemma keyed_records_NoDup (m : ResultMap) :
  keyed m -> NoDup (map record_of (map snd m)).
Proof.
  intros [Hnd Hk].
  apply (NoDup_map_factor record_of (fun p => key_of (fst p) (snd p)) result_key);
    [reflexivity |].
  rewrite map_map. erewrite map_ext_in; [exact Hnd |].
  intros [k e] H. simpl. symmetry. now apply Hk.
Qed.

Lemma slice0_prefix {A} (stop : Z) (entries : list A) :
  exists n, Js.slice0 stop entries = firstn n entries.
Proof. unfold Js.slice0. destruct (stop <? 0)%Z; eauto. Qed.

(** C1 (as stated, refuted): with [limit: -1] the final [slice(0, -1)]
    drops the last of the two records found; the list returned has one
    entry, which is more than the limit. *)
Lemma negative_limit_exceeded :
  let options := Some {| modules := None; limit := Some (-1)%Z; threshold := None |} in
  let res := results_of (search Sample.world 1 "kyoto" options Sample.ready) in
  (exists st', search Sample.world 1 "kyoto" options Sample.ready = Returned res st')
  /\ List.length res = 1%nat
  /\ ~ (Z.of_nat (List.length res) <= limit_of options)%Z.
Proof.
  intros options res. split; [| split].
  - eexists. vm_compute. reflexivity.
  - vm_compute. reflexivity.
  - vm_compute. intros H. now apply H.
Qed.

(** C1 (amended): a search that returns, made on an index as the builds
    leave it, returns no two entries for the same (collection, record id)
    pair, whatever the options; each entry is one of the candidates of the
    tiers, and no candidate for the same record has a higher score; and when
    the limit is not negative it returns at most [options.limit] entries (20
    by default). *)
Theorem search_bounded_and_fused (W : World) (fuel : nat) (query : string)
        (options : option Options) (st st' : State) (res : list EnhancedSearchResult) :
  fuse_faithful W ->
  store_ids_unique W ->
  wf_index (fuseInstances st) ->
  search W (S fuel) query options st = Returned res st' ->
  limit_of None = 20%Z
  /\ ((0 <= limit_of options)%Z ->
      (Z.of_nat (List.length res) <= limit_of options)%Z)
  /\ NoDup (map record_of res)
  /\ forall r, In r res ->
       In r (candidates W fuel query options st)
       /\ forall c, In c (candidates W fuel query options st) ->
                    record_of c = record_of r -> (_score c <= _score r)%Q.
Proof.
  intros Hfuse Hids Hwf H.
  apply search_unfold in H as (st1 & nlpResults & R & N & ->).
  pose proof (refresh_wf W st st1 Hids Hwf R) as Hwf1.
  destruct (fuzzy_tier_candidates W (modules_of options) (limit_of options)
              (threshold_of options) query (fuseInstances st1) Hfuse Hwf1)
    as [Hkeyed Hcand].
  set (fuzzy := fuzzy_tier W (modules_of options) (limit_of options)
                           (threshold_of options) query (fuseInstances st1) []) in *.
  destruct (merge_fold_spec nlpResults fuzzy Hkeyed) as (K & I & G & S).
  set (final := fold_left merge_result nlpResults fuzzy) in *.
  assert (Ecand : candidates W fuel query options st = map snd fuzzy ++ nlpResults).
  { unfold candidates, index_searched, nlp_candidates. rewrite R, N, Hcand. reflexivity. }
  split; [reflexivity |]. split; [intros Hlimit; now apply slice0_length |]. split.
  - destruct (slice0_prefix (limit_of options) (sort_desc (map snd final))) as (n & ->).
    rewrite <- firstn_map. apply NoDup_firstn.
    eapply Permutation_NoDup; [| apply (keyed_records_NoDup final K)].
    apply Permutation_map, Permutation_sym, sort_desc_perm.
  - intros r Hr. apply slice0_incl in Hr.
    apply (Permutation_in _ (sort_desc_perm _)) in Hr.
    apply in_map_iff in Hr as ([k e] & E & Hr). simpl in E. subst e.
    assert (Ek : k = result_key r) by (now apply (proj2 K)). subst k.
    pose proof (map_get_In _ _ _ (proj1 K) Hr) as Gr.
    rewrite Ecand. split.
    + apply in_or_app. destruct (I _ _ Hr) as [X | X]; [left | now right].
      change r with (snd (result_key r, r)). now apply in_map.
    + intros c Hc Erec.
      assert (Ekey : result_key c = result_key r).
      { unfold result_key. unfold record_of in Erec. now inversion Erec. }
      apply in_app_or in Hc as [Hc | Hc].
      * apply in_map_iff in Hc as ([k c'] & E & Hc). simpl in E. subst c'.
        assert (k = result_key c) by (now apply (proj2 Hkeyed)). subst k.
        pose proof (map_get_In _ _ _ (proj1 Hkeyed) Hc) as Gc.
        destruct (G _ _ Gc) as (e & Ge & L). rewrite Ekey in Ge.
        rewrite Gr in Ge. now inversion Ge; subst.
      * destruct (S c Hc) as (e & Ge & L). rewrite Ekey in Ge.
        rewrite Gr in Ge. now inversion Ge; subst.
Qed.

Lemma proper_ids_unique : store_ids_unique Sample.proper_world.
Proof. exact sample_ids_unique. Qed.

(** The search for "Kyoto" where the analyzer takes the word for a noun:
    the fuzzy tier and the nested search for "kyoto" both find the pin and
    the person, four candidates in all; each record is returned once, with
    the score 0.6 of the fuzzy tier rather than the 0.36 of the third. *)
Lemma search_bounded_and_fused_witness :
  let res := results_of (search Sample.proper_world 2 "Kyoto" None Sample.ready) in
  List.length (candidates Sample.proper_world 1 "Kyoto" None Sample.ready) = 4%nat
  /\ map record_of res = [("travelPins", "pin-1"); ("people", "person-1")]
  /\ forallb (fun r => Qeq_bool (_score r) (6 # 10)) res = true
  /\ (Z.of_nat (List.length res) <= 20)%Z
  /\ NoDup (map record_of res)
  /\ forall r c, In r res ->
       In c (candidates Sample.proper_world 1 "Kyoto" None Sample.ready) ->
       record_of c = record_of r -> (_score c <= _score r)%Q.
Proof.
  intros res.
  assert (E : search Sample.proper_world 2 "Kyoto" None Sample.ready =
              Returned res (Sample.run_state
                              (search Sample.proper_world 2 "Kyoto" None Sample.ready)))
    by (vm_compute; reflexivity).
  destruct (search_bounded_and_fused Sample.proper_world 1 "Kyoto" None Sample.ready _ _
              (toy_fuse_faithful (1 # 4) Sample.proper_world eq_refl)
              proper_ids_unique sample_ready_wf E) as (_ & A & B & C).
  split; [vm_compute; reflexivity |]. split; [vm_compute; reflexivity |].
  split; [vm_compute; reflexivity |].
  split; [apply A; vm_compute; discriminate |]. split; [exact B |].
  intros r c Hr Hc. now apply (proj2 (C r Hr)).
Defined.

(** ** When a search returns *)

Lemma searchWithNLP_terms (W : World)
      (search_rec : string -> option Options -> M (list EnhancedSearchResult))
      (query : string) (modules : option (list string)) :
  searchWithNLP search_rec (NLP.parseSearchQuery (nlp W) query) modules =
    match term_query W query with
    | None => ret []
    | Some termQuery =>
        basicResults <- search_rec termQuery
                          (Some {| Search.modules := modules; limit := Some 10%Z;
                                   threshold := None |}) ;;
        ret (map (rescore (6 # 10) "nlp") basicResults)
    end.
Proof.
  unfold searchWithNLP, term_query.
  destruct (NLP.searchTerms (NLP.parseSearchQuery (nlp W) query)); reflexivity.
Qed.

(** One level of [search], by cases on the outcome of the third tier. *)
Lemma search_step (W : World) (fuel : nat) (query : string) (options : option Options)
      (st : State) :
  exists st1,
    refresh_if_stale W st = Returned tt st1
    /\ search W (S fuel) query options st =
         match term_query W query with
         | None =>
             Returned
               (Js.slice0 (limit_of options)
                  (sort_desc
                     (map snd
                        (fuzzy_tier W (modules_of options) (limit_of options)
                                    (threshold_of options) query (fuseInstances st1) []))))
               st1
         | Some termQuery =>
             match search W fuel termQuery
                          (Some {| modules := modules_of options; limit := Some 10%Z;
                                   threshold := None |}) st1 with
             | Returned basicResults st2 =>
                 Returned
                   (Js.slice0 (limit_of options)
                      (sort_desc
                         (map snd
                            (fold_left merge_result
                               (map (rescore (6 # 10) "nlp") basicResults)
                               (fuzzy_tier W (modules_of options) (limit_of options)
                                           (threshold_of options) query
                                           (fuseInstances st1) [])))))
                   st2
             | Thrown e st2 => Thrown e st2
             | Pending => Pending
             end
         end.
Proof.
  destruct (refresh_spec W st) as (st1 & R & _). exists st1. split; [exact R |].
  cbn [search]. unfold bind at 1. rewrite R. unfold bind at 1, get at 1.
  rewrite searchWithNLP_terms. destruct (term_query W query) as [termQuery |].
  - unfold bind at 1. unfold bind at 1.
    destruct (search W fuel termQuery _ st1); reflexivity.
  - reflexivity.
Qed.

(** X10: a search returns as soon as the chain of term queries it passes
    to its nested searches ends: when the chain started by [query] reaches a
    query without search terms within [n] steps, [n + 1] levels of [search]
    suffice for a result. *)
Lemma search_returns (W : World) (n : nat) :
  forall query options st,
    settles W n query = true ->
    exists res st', search W (S n) query options st = Returned res st'.
Proof.
  induction n as [| n IH]; intros query options st H.
  - destruct (search_step W 0 query options st) as (st1 & _ & E). rewrite E.
    simpl in H. destruct (term_query W query); [discriminate | eauto].
  - destruct (search_step W (S n) query options st) as (st1 & _ & E). rewrite E.
    simpl in H. destruct (term_query W query) as [termQuery |]; [| eauto].
    destruct (IH termQuery
                 (Some {| modules := modules_of options; limit := Some 10%Z;
                          threshold := None |}) st1 H) as (basic & st2 & E').
    rewrite E'. eauto.
Qed.

(** X11: a search whose term query is passed on unchanged never settles:
    [search] calls [searchWithNLP], which calls [search] on the joined search
    terms, and when those terms are again the search terms of that query the
    nested searches go on for ever, whatever depth is allowed. *)
Lemma search_pending (W : World) (query termQuery : string) :
  term_query W query = Some termQuery ->
  term_query W termQuery = Some termQuery ->
  forall fuel options st, search W fuel query options st = Pending.
Proof.
  intros H1 H2.
  assert (Fix : forall fuel options st, search W fuel termQuery options st = Pending).
  { induction fuel as [| fuel IH]; intros options st; [reflexivity |].
    destruct (search_step W fuel termQuery options st) as (st1 & _ & E).
    rewrite E, H2. now rewrite IH. }
  intros [| fuel] options st; [reflexivity |].
  destruct (search_step W fuel query options st) as (st1 & _ & E).
  rewrite E, H1. now rewrite Fix.
Qed.

Lemma search_pending_witness :
  search Sample.word_world 7 "Temple" None Sample.ready = Pending.
Proof.
  apply (search_pending Sample.word_world "Temple" "temple"); reflexivity.
Defined.

Lemma search_returns_witness :
  exists res st', search Sample.world 1 "kyoto" None Sample.ready = Returned res st'.
Proof. apply (search_returns Sample.world 0 "kyoto" None Sample.ready). reflexivity. Defined.

(** ** Enrichment *)

Import UniversalSearch.

(** C6 (as stated, refuted): the enrichment call rejects; the semantic
    search for "temple in kyoto" had found nothing, and the handler shows the
    two records that the base search for the same query finds. *)
Lemma failed_enrichment_changes_results :
  let fetch := fun (_ : string) (_ : list EnhancedSearchResult) => AI.Rejected in
  let query := "temple in kyoto" in
  results_of (local_search Sample.world 1 query Sample.ready) = []
  /\ AI.enhancedSearch fetch query [] = Some (AI.substitute query)
  /\ List.length (shown_after [] (handleSearch Sample.world fetch 1 query Sample.ready))
     = 2%nat
  /\ shown_after [] (handleSearch Sample.world fetch 1 query Sample.ready)
     <> results_of (local_search Sample.world 1 query Sample.ready).
Proof.
  split; [vm_compute; reflexivity |]. split; [reflexivity |].
  split; [vm_compute; reflexivity |].
  intros E. apply (f_equal (@List.length _)) in E. vm_compute in E. discriminate.
Qed.

Lemma join_one (sep x : string) : Js.join sep [x] = x.
Proof. reflexivity. Qed.

(** C6 (amended): when the enrichment call fails (the fetch rejects, the
    status is not 2xx, or the body is malformed) the client swallows the
    failure and hands back [{searchTerms: [query], filters: {}, suggestions: []}];
    the handler treats that like any answer with search terms: it re-runs the
    base search, here on the original query, and takes its results only if
    they are strictly more than the local ones, keeping the local ones
    otherwise.  In every case the enrichment step ends with the local results
    or with strictly more results of a re-search, and never throws. *)
Theorem enrichment_fallback (W : World)
        (fetch : string -> list EnhancedSearchResult -> AI.FetchResult)
        (fuel : nat) (query : string) (searchResults : list EnhancedSearchResult)
        (st : State) :
  (forall context, AI.failed (fetch query context) = true ->
                   AI.enhancedSearch fetch query context = Some (AI.substitute query))
  /\ (forall enhancedResults st',
         AI.failed (fetch query (Js.slice0 3 searchResults)) = true ->
         (8 <? String.length query)%nat && (List.length searchResults <? 5)%nat = true ->
         search W fuel query None st = Returned enhancedResults st' ->
         enrich W fetch fuel query searchResults st =
           Returned (if (List.length searchResults <? List.length enhancedResults)%nat
                     then enhancedResults else searchResults) st')
  /\ (forall final st',
         enrich W fetch fuel query searchResults st = Returned final st' ->
         final = searchResults
         \/ exists aiAnalysis terms,
              AI.enhancedSearch fetch query (Js.slice0 3 searchResults) = Some aiAnalysis
              /\ AI.searchTerms aiAnalysis = Some terms
              /\ search W fuel (Js.join " " terms) None st = Returned final st'
              /\ (List.length searchResults < List.length final)%nat)
  /\ forall e st', enrich W fetch fuel query searchResults st <> Thrown e st'.
Proof.
  assert (Sub : forall context, AI.failed (fetch query context) = true ->
                  AI.enhancedSearch fetch query context = Some (AI.substitute query)).
  { intros context H. unfold AI.enhancedSearch, AI.request.
    destruct (fetch query context) as [| [|] [| success result fallback]];
      try reflexivity; discriminate. }
  split; [exact Sub |]. split; [| split].
  - intros enhancedResults st' Hfail Htrig Hsearch.
    unfold enrich. rewrite Htrig. unfold try_catch, enhance.
    rewrite (Sub _ Hfail). cbn [AI.searchTerms AI.substitute]. rewrite join_one.
    unfold bind. rewrite Hsearch.
    destruct (List.length searchResults <? List.length enhancedResults)%nat; reflexivity.
  - intros final st'. unfold enrich.
    destruct ((8 <? String.length query)%nat && (List.length searchResults <? 5)%nat);
      [| unfold ret; intros E; inversion E; now left].
    unfold try_catch, enhance.
    destruct (AI.enhancedSearch fetch query (Js.slice0 3 searchResults))
      as [aiAnalysis |] eqn:A;
      [| unfold throw, ret; intros E; inversion E; now left].
    destruct (AI.searchTerms aiAnalysis) as [[| term terms] |] eqn:T;
      try (unfold ret; intros E; inversion E; now left).
    unfold bind.
    destruct (search W fuel (Js.join " " (term :: terms)) None st)
      as [enhancedResults st2 | e st2 |] eqn:S; try discriminate.
    + destruct (List.length searchResults <? List.length enhancedResults)%nat eqn:L;
        unfold ret; intros E; inversion E; subst; [| now left].
      right. exists aiAnalysis, (term :: terms). apply Nat.ltb_lt in L. auto.
    + unfold ret. intros E. inversion E. now left.
  - intros e st'. unfold enrich.
    destruct ((8 <? String.length query)%nat && (List.length searchResults <? 5)%nat);
      [| discriminate].
    unfold try_catch. destruct (enhance W fetch fuel query searchResults st); discriminate.
Qed.

Lemma enrichment_fallback_witness :
  let fetch := fun (_ : string) (_ : list EnhancedSearchResult) =>
                 AI.Response false AI.Malformed in
  let query := "golden temple" in
  let localResults := results_of (local_search Sample.world 1 query Sample.ready) in
  List.length localResults = 1%nat
  /\ results_of (enrich Sample.world fetch 1 query localResults Sample.ready) = localResults.
Proof.
  intros fetch query localResults.
  split; [vm_compute; reflexivity |].
  destruct (enrichment_fallback Sample.world fetch 1 query localResults Sample.ready)
    as (_ & H & _).
  assert (E : search Sample.world 1 query None Sample.ready =
              Returned (results_of (search Sample.world 1 query None Sample.ready))
                       (Sample.run_state (search Sample.world 1 query None Sample.ready)))
    by (vm_compute; reflexivity).
  rewrite (H _ _ eq_refl eq_refl E). vm_compute. reflexivity.
Defined.

(** * Further properties of the service *)

(** ** Order of the results *)

Lemma insert_desc_sorted (x : EnhancedSearchResult) (l : list EnhancedSearchResult) :
  StronglySorted by_score l -> StronglySorted by_score (insert_desc x l).
Proof.
  induction l as [| y rest IH]; simpl; intros Hs.
  - repeat constructor.
  - apply StronglySorted_inv in Hs as [Hrest Hy].
    destruct (Qlt_bool (_score x) (_score y)) eqn:C.
    + constructor; [now apply IH |].
      apply (Permutation_Forall (Permutation_sym (insert_desc_perm x rest))).
      constructor; [now apply Qlt_bool_true | assumption].
    + apply Qlt_bool_false in C. constructor; [now constructor |].
      constructor; [exact C |].
      eapply Forall_impl; [| exact Hy]. intros z Hz. unfold by_score in *.
      eapply Qle_trans; eassumption.
Qed.

Lemma sort_desc_sorted (l : list EnhancedSearchResult) :
  StronglySorted by_score (sort_desc l).
Proof.
  unfold sort_desc. induction l as [| x l IH]; simpl; [constructor |].
  now apply insert_desc_sorted.
Qed.

Lemma firstn_sorted {A} (R : A -> A -> Prop) (n : nat) (entries : list A) :
  StronglySorted R entries -> StronglySorted R (firstn n entries).
Proof.
  revert n. induction entries as [| x entries IH]; intros [| n] Hs; simpl;
    try constructor.
  - apply IH. now apply StronglySorted_inv in Hs.
  - apply StronglySorted_inv in Hs as [_ Hx].
    apply Forall_forall. intros z Hz. rewrite Forall_forall in Hx.
    apply Hx. eapply firstn_incl. eassumption.
Qed.

Lemma slice0_sorted {A} (R : A -> A -> Prop) (stop : Z) (entries : list A) :
  StronglySorted R entries -> StronglySorted R (Js.slice0 stop entries).
Proof. unfold Js.slice0. destruct (stop <? 0)%Z; apply firstn_sorted. Qed.

(** X1: whatever the query, the options and the state of the index, the
    list that [search] returns is in order of non-increasing [_score]. *)
Theorem search_results_sorted (W : World) (fuel : nat) (query : string)
        (options : option Options) (st st' : State) (res : list EnhancedSearchResult) :
  search W fuel query options st = Returned res st' ->
  StronglySorted by_score res.
Proof.
  destruct fuel as [| fuel]; [discriminate |]. intros H.
  apply search_unfold in H as (st1 & nlpResults & _ & _ & ->).
  apply slice0_sorted, sort_desc_sorted.
Qed.

Lemma search_results_sorted_witness :
  List.length (results_of (search Sample.world 1 "kyoto" None Sample.ready)) = 2%nat
  /\ StronglySorted by_score (results_of (search Sample.world 1 "kyoto" None Sample.ready)).
Proof.
  split; [vm_compute; reflexivity |].
  apply (search_results_sorted Sample.world 1 "kyoto" None Sample.ready
           (Sample.run_state (search Sample.world 1 "kyoto" None Sample.ready))).
  vm_compute. reflexivity.
Defined.

(** ** Semantic search *)

Ltac destruct_run H :=
  match type of H with
  | context [match ?r with Returned _ _ => _ | Thrown _ _ => _ | Pending => _ end] =>
      let E := fresh "E" in destruct r eqn:E; try discriminate H
  end.

Lemma semanticSearch_unfold (W : World) (fuel : nat) (query : string)
      (modules : option (list string)) (st st' : State)
      (res : list EnhancedSearchResult) :
  semanticSearch W fuel query modules st = Returned res st' ->
  let parsedQuery := NLP.parseSearchQuery (nlp W) query in
  exists peopleResults placesResults filteredResults st1 st2,
    match NLP.people (NLP.entities parsedQuery) with
    | [] => ret []
    | people => searchByEntity (search W fuel) "people" people
    end st = Returned peopleResults st1
    /\ match NLP.places (NLP.entities parsedQuery) with
       | [] => ret []
       | places => searchByEntity (search W fuel) "places" places
       end st1 = Returned placesResults st2
    /\ searchByFilters (search W fuel) (NLP.filters parsedQuery) st2 =
         Returned filteredResults st'
    /\ res = sort_desc
               (filter (in_modules modules)
                  (map snd (fold_left merge_result
                              (peopleResults ++ placesResults ++ filteredResults) []))).
Proof.
  intros H parsedQuery. unfold semanticSearch in H. fold parsedQuery in H.
  unfold bind at 1 in H. destruct_run H.
  unfold bind at 1 in H. destruct_run H.
  unfold bind at 1 in H. destruct_run H.
  unfold ret in H. inversion H; subst. eauto 10.
Qed.

Lemma keyed_empty : keyed [].
Proof. split; [constructor | intros ? ? []]. Qed.

Lemma in_modules_spec (ms : list string) (r : EnhancedSearchResult) :
  in_modules (Some ms) r = true <-> In (_type (item r)) ms.
Proof. apply mem_In. Qed.

(** X2: the list that [semanticSearch] returns is in order of
    non-increasing score, has no two entries for the same (collection,
    record id) pair, and, when [modules] is given, holds only results of
    those collections. *)
Theorem semanticSearch_results (W : World) (fuel : nat) (query : string)
        (modules : option (list string)) (st st' : State)
        (res : list EnhancedSearchResult) :
  semanticSearch W fuel query modules st = Returned res st' ->
  StronglySorted by_score res
  /\ NoDup (map record_of res)
  /\ forall ms r, modules = Some ms -> In r res -> In (_type (item r)) ms.
Proof.
  intros H. apply semanticSearch_unfold in H
    as (people & places & filtered & st1 & st2 & _ & _ & _ & ->).
  set (final := fold_left merge_result (people ++ places ++ filtered) []).
  destruct (merge_fold_spec (people ++ places ++ filtered) [] keyed_empty)
    as (K & _).
  split; [apply sort_desc_sorted |]. split.
  - eapply Permutation_NoDup;
      [apply Permutation_map, Permutation_sym, sort_desc_perm |].
    apply NoDup_map_filter. now apply keyed_records_NoDup.
  - intros ms r -> Hr.
    apply (Permutation_in _ (sort_desc_perm _)) in Hr.
    apply filter_In in Hr as [_ Hr]. now apply in_modules_spec.
Qed.

Lemma semanticSearch_results_witness :
  let res := results_of (semanticSearch Sample.place_world 1 "temple in Kyoto"
                                        (Some ["people"]) Sample.ready) in
  List.length res = 1%nat
  /\ StronglySorted by_score res
  /\ NoDup (map record_of res)
  /\ forall r, In r res -> In (_type (item r)) ["people"].
Proof.
  intros res.
  destruct (semanticSearch_results Sample.place_world 1 "temple in Kyoto"
              (Some ["people"]) Sample.ready
              (Sample.run_state
                 (semanticSearch Sample.place_world 1 "temple in Kyoto"
                                 (Some ["people"]) Sample.ready)) res)
    as (A & B & C); [vm_compute; reflexivity |].
  split; [vm_compute; reflexivity |]. split; [exact A |]. split; [exact B |].
  intros r Hr. exact (C ["people"] r eq_refl Hr).
Defined.

(** ** Sizes *)

Lemma search_length (W : World) (fuel : nat) (query : string)
      (options : option Options) (st st' : State) (res : list EnhancedSearchResult) :
  (0 <= limit_of options)%Z ->
  search W fuel query options st = Returned res st' ->
  (Z.of_nat (List.length res) <= limit_of options)%Z.
Proof.
  intros L H. destruct fuel as [| fuel]; [discriminate |].
  apply search_unfold in H as (st1 & nlpResults & _ & _ & ->).
  now apply slice0_length.
Qed.

Lemma map_set_length {V} (key : string) (v : V) (m : list (string * V)) :
  (List.length (map_set key v m) <= S (List.length m))%nat.
Proof.
  induction m as [| [k w] m IH]; simpl; [lia |].
  destruct (String.eqb k key); simpl; lia.
Qed.

Lemma merge_fold_length (candidates : list EnhancedSearchResult) (m : ResultMap) :
  (List.length (fold_left merge_result candidates m)
   <= List.length m + List.length candidates)%nat.
Proof.
  revert m. induction candidates as [| c l IH]; intros m; simpl; [lia |].
  specialize (IH (merge_result m c)).
  assert (List.length (merge_result m c) <= S (List.length m))%nat.
  { unfold merge_result. destruct (absent_or_below _ _ m); [apply map_set_length | lia]. }
  lia.
Qed.

Lemma searchByEntity_length (W : World) (fuel : nat) (entityType : string)
      (entities : list string) :
  forall st st' res,
    searchByEntity (search W fuel) entityType entities st = Returned res st' ->
    (List.length res <= 5 * List.length entities)%nat.
Proof.
  induction entities as [| entity rest IH]; intros st st' res H; simpl in H.
  - inversion H. simpl. lia.
  - unfold bind at 1 in H. destruct_run H.
    unfold bind at 1 in H. destruct_run H.
    unfold ret in H. inversion H; subst.
    apply search_length in E; [| simpl; lia]. apply IH in E0.
    rewrite length_app, length_map. simpl in *. lia.
Qed.

Lemma searchByFilters_length (W : World) (fuel : nat) (filters : NLP.Filters)
      (st st' : State) (res : list EnhancedSearchResult) :
  searchByFilters (search W fuel) filters st = Returned res st' ->
  (List.length res <= 15)%nat.
Proof.
  unfold searchByFilters. intros H.
  unfold bind at 1 in H. destruct_run H.
  unfold bind at 1 in H. destruct_run H.
  unfold ret in H. inversion H; subst. rewrite length_app.
  assert (List.length a <= 10)%nat.
  { destruct (Js.truthy (NLP.location filters)); [| inversion E; simpl; lia].
    unfold bind in E. destruct_run E. unfold ret in E. inversion E; subst.
    apply search_length in E1; [| simpl; lia]. rewrite length_map. simpl in E1. lia. }
  assert (List.length a0 <= 5)%nat.
  { destruct (Js.truthy (NLP.person filters)); [| inversion E0; simpl; lia].
    unfold bind in E0. destruct_run E0. unfold ret in E0. inversion E0; subst.
    apply search_length in E1; [| simpl; lia]. rewrite length_map. simpl in E1. lia. }
  lia.
Qed.

(** X3: [semanticSearch] takes no limit, yet its result is bounded: at
    most five entries for each person and each place the analyzer extracts,
    ten for the location filter and five for the person filter. *)
Theorem semanticSearch_size (W : World) (fuel : nat) (query : string)
        (modules : option (list string)) (st st' : State)
        (res : list EnhancedSearchResult) :
  semanticSearch W fuel query modules st = Returned res st' ->
  let entities := NLP.entities (NLP.parseSearchQuery (nlp W) query) in
  (List.length res
   <= 5 * (List.length (NLP.people entities) + List.length (NLP.places entities)) + 15)%nat.
Proof.
  intros H entities. apply semanticSearch_unfold in H
    as (people & places & filtered & st1 & st2 & Hp & Hl & Hf & ->).
  fold entities in Hp, Hl.
  assert (Lp : (List.length people <= 5 * List.length (NLP.people entities))%nat).
  { destruct (NLP.people entities) eqn:P; [inversion Hp; simpl; lia |].
    now apply searchByEntity_length in Hp. }
  assert (Ll : (List.length places <= 5 * List.length (NLP.places entities))%nat).
  { destruct (NLP.places entities) eqn:P; [inversion Hl; simpl; lia |].
    now apply searchByEntity_length in Hl. }
  apply searchByFilters_length in Hf.
  rewrite (Permutation_length (sort_desc_perm _)).
  pose proof (filter_length_le (in_modules modules)
                (map snd (fold_left merge_result (people ++ places ++ filtered) [])))
    as Lf.
  rewrite length_map in Lf.
  pose proof (merge_fold_length (people ++ places ++ filtered) []) as Lm.
  rewrite !length_app in Lm. simpl in Lm. lia.
Qed.

Lemma semanticSearch_size_witness :
  let res := results_of (semanticSearch Sample.place_world 1 "temple in Kyoto" None
                                        Sample.ready) in
  List.length res = 2%nat /\ (List.length res <= 5 * (0 + 1) + 15)%nat.
Proof.
  intros res. split; [vm_compute; reflexivity |].
  apply (semanticSearch_size Sample.place_world 1 "temple in Kyoto" None Sample.ready
           (Sample.run_state (semanticSearch Sample.place_world 1 "temple in Kyoto" None
                                             Sample.ready))).
  vm_compute. reflexivity.
Defined.

(** ** Scores *)

Lemma similarity_in_unit (W : World) (docs : list SearchableItem) (query : string)
      (limit : Z) (hit : FuseResult) :
  distances_in_unit W -> In hit (fuse W docs query limit) ->
  (0 <= similarity hit <= 1)%Q.
Proof.
  intros D H. unfold similarity. destruct (fuse_score hit) as [d |] eqn:S.
  - specialize (D docs query limit hit d H S). lra.
  - lra.
Qed.

Lemma fuzzy_tier_scores (W : World) (modules : option (list string)) (limit : Z)
      (threshold : Q) (query : string) (instances : list (string * list SearchableItem))
      (k : string) (e : EnhancedSearchResult) :
  distances_in_unit W ->
  In (k, e) (fuzzy_tier W modules limit threshold query instances []) ->
  (0 <= _score e <= 8 # 10)%Q.
Proof.
  intros D H. rewrite fuzzy_tier_hits in H.
  apply fuzzy_fold_threshold in H as [[] | (mh & Hm & -> & _)].
  apply fuzzy_hits_In in Hm as (docs & _ & Hh).
  pose proof (similarity_in_unit W docs query limit (snd mh) D Hh). simpl. lra.
Qed.

Lemma search_scores_bounded_aux (W : World) (fuel : nat) (query : string)
      (options : option Options) (st st' : State) (res : list EnhancedSearchResult)
      (r : EnhancedSearchResult) :
  distances_in_unit W ->
  search W fuel query options st = Returned res st' ->
  In r res -> (0 <= _score r <= 8 # 10)%Q.
Proof.
  intros D. revert query options st st' res r.
  induction fuel as [| fuel IH]; intros query options st st' res r H Hr;
    [discriminate |].
  destruct (search_step W fuel query options st) as (st1 & _ & E). rewrite E in H.
  destruct (term_query W query) as [termQuery |].
  - destruct (search W fuel termQuery _ st1) as [basic st2 | |] eqn:N; try discriminate.
    inversion H; subst. apply slice0_incl in Hr.
    apply (Permutation_in _ (sort_desc_perm _)) in Hr.
    apply in_map_iff in Hr as ([k e] & <- & Hr). simpl.
    apply merge_fold_In in Hr as [Hr | Hr].
    + eapply fuzzy_tier_scores; eassumption.
    + apply in_map_iff in Hr as (r0 & <- & Hr0).
      pose proof (IH _ _ _ _ _ r0 N Hr0). simpl. lra.
  - inversion H; subst. apply slice0_incl in Hr.
    apply (Permutation_in _ (sort_desc_perm _)) in Hr.
    apply in_map_iff in Hr as ([k e] & <- & Hr). simpl.
    eapply fuzzy_tier_scores; eassumption.
Qed.

(** X4: when Fuse reports match distances between 0 and 1, every score
    that [search] returns lies between 0 and 0.8. *)
Theorem search_scores_bounded (W : World) (fuel : nat) :
  distances_in_unit W ->
  forall query options st st' res,
    search W fuel query options st = Returned res st' ->
    forall r, In r res -> (0 <= _score r <= 8 # 10)%Q.
Proof.
  intros D query options st st' res H r Hr.
  eapply search_scores_bounded_aux; eassumption.
Qed.

Lemma toy_distances_in_unit (W : World) :
  fuse W = Sample.toy_fuse (1 # 4) -> distances_in_unit W.
Proof.
  intros E docs query limit hit d H S. rewrite E in H. unfold Sample.toy_fuse in H.
  assert (X : In hit (map (Sample.hit (1 # 4))
                          (filter (fun it => existsb (Js.includes (Js.or_empty (searchableText it)))
                                                     (Js.split " " (Js.toLowerCase query)))
                                  docs))).
  { destruct (-1 <? limit)%Z; [eapply firstn_incl; eassumption | assumption]. }
  apply in_map_iff in X as (it & <- & _). simpl in S. inversion S. lra.
Qed.

Lemma search_scores_bounded_witness :
  forallb (fun r => Qle_bool 0 (_score r) && Qle_bool (_score r) (8 # 10))
          (results_of (search Sample.world 1 "kyoto" None Sample.ready)) = true
  /\ List.length (results_of (search Sample.world 1 "kyoto" None Sample.ready)) = 2%nat.
Proof.
  split; [| vm_compute; reflexivity].
  apply forallb_forall. intros r Hr.
  destruct (search_scores_bounded Sample.world 1
              (toy_distances_in_unit Sample.world eq_refl) "kyoto" None Sample.ready
              (Sample.run_state (search Sample.world 1 "kyoto" None Sample.ready))
              (results_of (search Sample.world 1 "kyoto" None Sample.ready))
              ltac:(vm_compute; reflexivity) r Hr) as [A B].
  apply andb_true_iff. split; now apply Qle_bool_iff.
Defined.

(** ** The [modules] option and the collections of the results *)

Lemma fuzzy_hits_excluded (W : World) (modules : option (list string)) (limit : Z)
      (query : string) (instances : list (string * list SearchableItem))
      (mh : string * FuseResult) :
  In mh (fuzzy_hits W modules limit query instances) ->
  excluded modules (fst mh) = false.
Proof.
  unfold fuzzy_hits. intros H. apply in_flat_map in H as ([m docs] & _ & H).
  simpl in H. destruct (excluded modules m) eqn:X; [destruct H |].
  apply in_map_iff in H as (hit & <- & _). exact X.
Qed.

Lemma fuzzy_tier_source (W : World) (modules : option (list string)) (limit : Z)
      (threshold : Q) (query : string) (instances : list (string * list SearchableItem))
      (k : string) (e : EnhancedSearchResult) :
  fuse_faithful W ->
  In (k, e) (fuzzy_tier W modules limit threshold query instances []) ->
  exists m docs,
    In (m, docs) instances /\ In (item e) docs /\ excluded modules m = false.
Proof.
  intros Hf H. rewrite fuzzy_tier_hits in H.
  apply fuzzy_fold_threshold in H as [[] | (mh & Hm & -> & _)].
  pose proof (fuzzy_hits_excluded _ _ _ _ _ _ Hm) as X.
  apply fuzzy_hits_In in Hm as (docs & Hin & Hh).
  exists (fst mh), docs. split; [exact Hin |]. split; [| exact X].
  simpl. now apply (Hf docs query limit).
Qed.

(** Every result of a search is a document of a Fuse instance that the
    search, or one of its nested searches, went through, and of a collection
    that [modules] admits; [Inv] is what the age checks keep of the state
    and [Src] what it tells of the instances. *)
Lemma search_hits_in (W : World) (Inv : State -> Prop)
      (Src : string -> list SearchableItem -> Prop) :
  fuse_faithful W ->
  (forall st st1, Inv st -> refresh_if_stale W st = Returned tt st1 -> Inv st1) ->
  (forall st m docs, Inv st -> In (m, docs) (fuseInstances st) -> Src m docs) ->
  forall fuel query options st st' res,
    Inv st ->
    search W fuel query options st = Returned res st' ->
    forall r, In r res ->
      exists m docs,
        Src m docs /\ In (item r) docs /\ excluded (modules_of options) m = false.
Proof.
  intros Hf Hkeep Hsrc. induction fuel as [| fuel IH];
    intros query options st st' res HI H r Hr; [discriminate |].
  destruct (search_step W fuel query options st) as (st1 & R & E). rewrite E in H.
  pose proof (Hkeep st st1 HI R) as HI1.
  assert (Fz : forall k e,
             In (k, e) (fuzzy_tier W (modules_of options) (limit_of options)
                                   (threshold_of options) query (fuseInstances st1) []) ->
             exists m docs,
               Src m docs /\ In (item e) docs /\ excluded (modules_of options) m = false).
  { intros k e He. destruct (fuzzy_tier_source _ _ _ _ _ _ _ _ Hf He)
      as (m & docs & Hin & Hd & X).
    exists m, docs. split; [eapply Hsrc; eassumption | auto]. }
  destruct (term_query W query) as [termQuery |].
  - destruct (search W fuel termQuery _ st1) as [basic st2 | |] eqn:N; try discriminate.
    inversion H; subst. apply slice0_incl in Hr.
    apply (Permutation_in _ (sort_desc_perm _)) in Hr.
    apply in_map_iff in Hr as ([k e] & <- & Hr). simpl.
    apply merge_fold_In in Hr as [Hr | Hr]; [eapply Fz; eassumption |].
    apply in_map_iff in Hr as (r0 & <- & Hr0). simpl.
    exact (IH _ _ _ _ _ HI1 N r0 Hr0).
  - inversion H; subst. apply slice0_incl in Hr.
    apply (Permutation_in _ (sort_desc_perm _)) in Hr.
    apply in_map_iff in Hr as ([k e] & <- & Hr). simpl.
    eapply Fz; eassumption.
Qed.

(** X5: on an index as the builds leave it, a search with
    [options.modules] returns only results of the collections named there,
    from the fuzzy tier as from the nested searches of the third tier, and
    every result is of one of the eight collections: a name in [modules]
    that is no collection contributes nothing. *)
Theorem search_respects_modules (W : World) (fuel : nat) :
  fuse_faithful W ->
  store_ids_unique W ->
  forall query options ms st st' res,
    wf_index (fuseInstances st) ->
    incl (map fst (fuseInstances st)) stores ->
    modules_of options = Some ms ->
    search W fuel query options st = Returned res st' ->
    forall r, In r res ->
      In (_type (item r)) ms
      /\ In (_type (item r)) stores
      /\ forall other, In other ms -> ~ In other stores -> _type (item r) <> other.
Proof.
  intros Hf Hids query options ms st st' res Hwf Hst Hm H r Hr.
  destruct (search_hits_in W
              (fun s => wf_index (fuseInstances s)
                        /\ incl (map fst (fuseInstances s)) stores)
              (fun m docs => In m stores /\ forall d, In d docs -> _type d = m) Hf)
    with (fuel := fuel) (query := query) (options := options) (st := st) (st' := st')
         (res := res) (r := r)
    as (m & docs & [Sm St] & Hi & X); try assumption.
  - intros s s1 [Wf Ns] R. split; [eapply refresh_wf; eassumption |].
    destruct (refresh_spec W s) as (s1' & R' & D). rewrite R' in R. inversion R; subst.
    destruct D as [D | D]; rewrite D; [assumption |].
    intros x Hx. eapply built_instances_keys. eassumption.
  - intros s m docs [[_ Wf] Ns] Hin. split.
    + apply Ns. apply in_map_iff. exists (m, docs). auto.
    + apply (Wf m docs Hin).
  - now split.
  - rewrite (St _ Hi). rewrite Hm in X. simpl in X. apply negb_false_iff in X.
    apply mem_In in X. split; [exact X |]. split; [exact Sm |].
    intros other _ Hn E. subst other. contradiction.
Qed.

Lemma sample_ready_stores : incl (map fst (fuseInstances Sample.ready)) stores.
Proof.
  intros x Hx. vm_compute in Hx.
  repeat (destruct Hx as [Hx | Hx];
          [subst x; apply (proj1 (mem_In _ _)); vm_compute; reflexivity |]).
  destruct Hx.
Qed.

(** With [modules: ["people", "nowhere"]] the search for "kyoto" returns the
    person and not the pin, and nothing of a type "nowhere". *)
Lemma search_respects_modules_witness :
  let options := Some {| modules := Some ["people"; "nowhere"]; limit := None;
                         threshold := None |} in
  let res := results_of (search Sample.world 1 "kyoto" options Sample.ready) in
  map (fun r => _type (item r)) res = ["people"]
  /\ forall r, In r res ->
       In (_type (item r)) ["people"; "nowhere"] /\ _type (item r) <> "nowhere".
Proof.
  intros options res. split; [vm_compute; reflexivity |].
  intros r Hr.
  destruct (search_respects_modules Sample.world 1
              (toy_fuse_faithful (1 # 4) Sample.world eq_refl) sample_ids_unique
              "kyoto" options ["people"; "nowhere"] Sample.ready
              (Sample.run_state (search Sample.world 1 "kyoto" options Sample.ready))
              res sample_ready_wf sample_ready_stores eq_refl
              ltac:(vm_compute; reflexivity) r Hr) as (A & _ & C).
  split; [exact A |]. apply C; [simpl; tauto |].
  intros X. apply mem_In in X. vm_compute in X. discriminate.
Defined.

(** ** Searching a fresh index *)

Lemma refresh_fresh (W : World) (st : State) :
  always_fresh W st -> refresh_if_stale W st = Returned tt (tick st).
Proof.
  intros F. unfold refresh_if_stale, date_now. run.
  destruct (indexUpdateInterval <? now W (clock st) - lastIndexUpdate st)%Z eqn:C;
    [| reflexivity].
  apply Z.ltb_lt in C. specialize (F (clock st)). lia.
Qed.

Lemma same_index_fresh (W : World) (a b : State) :
  same_index a b -> always_fresh W a -> always_fresh W b.
Proof. intros (_ & _ & E) F n. rewrite <- E. apply F. Qed.

Lemma search_fresh_gen (W : World) (fuel : nat) :
  forall query options a b a' res,
    always_fresh W a -> same_index a b ->
    search W fuel query options a = Returned res a' ->
    same_index a a'
    /\ exists b', search W fuel query options b = Returned res b' /\ same_index b b'.
Proof.
  induction fuel as [| fuel IH]; intros query options a b a' res Fa S H; [discriminate |].
  pose proof (same_index_fresh W a b S Fa) as Fb.
  destruct (search_step W fuel query options a) as (a1 & Ra & Ea).
  destruct (search_step W fuel query options b) as (b1 & Rb & Eb).
  rewrite (refresh_fresh W a Fa) in Ra. inversion Ra; subst a1.
  rewrite (refresh_fresh W b Fb) in Rb. inversion Rb; subst b1.
  rewrite Ea in H. rewrite Eb. clear Ea Eb Ra Rb.
  assert (Sa : same_index a (tick a)) by (repeat split).
  assert (Sb : same_index b (tick b)) by (repeat split).
  assert (St : same_index (tick a) (tick b)) by (destruct S as (? & ? & ?); repeat split; assumption).
  assert (Fi : fuseInstances (tick a) = fuseInstances (tick b)) by apply St.
  destruct (term_query W query) as [termQuery |].
  - destruct (search W fuel termQuery _ (tick a)) as [basic a2 | |] eqn:N;
      try discriminate.
    inversion H; subst.
    destruct (IH _ _ _ (tick b) _ _ (same_index_fresh W a (tick a) Sa Fa) St N)
      as (S2 & b2 & N2 & S3).
    rewrite N2, <- Fi. split.
    + destruct Sa as (? & ? & ?), S2 as (? & ? & ?). repeat split; congruence.
    + eexists. split; [reflexivity |].
      destruct Sb as (? & ? & ?), S3 as (? & ? & ?). repeat split; congruence.
  - inversion H; subst. rewrite <- Fi. split; [exact Sa |]. eauto.
Qed.

(** X6: while the index is younger than the refresh interval, [search]
    leaves the document index, the Fuse instances and the time of the last
    build as they are, and the same search made again returns the same list
    in the same order. *)
Theorem search_on_fresh_index (W : World) (fuel : nat) (query : string)
        (options : option Options) (st st' : State) (res : list EnhancedSearchResult) :
  always_fresh W st ->
  search W fuel query options st = Returned res st' ->
  same_index st st'
  /\ exists st'', search W fuel query options st' = Returned res st''
                  /\ same_index st st''.
Proof.
  intros F H.
  destruct (search_fresh_gen W fuel query options st st st' res F
              (conj eq_refl (conj eq_refl eq_refl)) H) as (S & _).
  destruct (search_fresh_gen W fuel query options st st' st' res F S H)
    as (_ & st'' & H2 & S2).
  split; [exact S |]. exists st''. split; [exact H2 |].
  destruct S as (? & ? & ?), S2 as (? & ? & ?). repeat split; congruence.
Qed.

(** The sample clock advanced by no more than the refresh interval. *)
Lemma search_on_fresh_index_witness :
  let W := {| nlp := Sample.quiet_nlp; fuse := Sample.toy_fuse (1 # 4);
              getAll := Sample.store_read;
              now := fun n => (1700000000000 + Z.min (Z.of_nat n) 1000)%Z;
              flexAccepts := fun _ => true;
              universalSearch := fun _ => Raise "getAll rejected" |} in
  let first := search W 1 "kyoto" None Sample.ready in
  List.length (results_of first) = 2%nat
  /\ results_of (search W 1 "kyoto" None (Sample.run_state first)) = results_of first.
Proof.
  intros W first. split; [vm_compute; reflexivity |].
  assert (F : always_fresh W Sample.ready).
  { intros n. change (lastIndexUpdate Sample.ready) with 1700000000000%Z.
    unfold indexUpdateInterval, W. cbn [now]. lia. }
  destruct (search_on_fresh_index W 1 "kyoto" None Sample.ready
              (Sample.run_state first) (results_of first) F
              ltac:(vm_compute; reflexivity)) as (_ & st'' & H & _).
  rewrite H. reflexivity.
Defined.

(** ** Readers during a build *)



(** ** The index stays well-formed *)

Lemma search_keeps_wf (W : World) (fuel : nat) :
  store_ids_unique W ->
  forall query options st st' res,
    wf_index (fuseInstances st) ->
    search W fuel query options st = Returned res st' ->
    wf_index (fuseInstances st').
Proof.
  intros Hids. induction fuel as [| fuel IH]; intros query options st st' res Hwf H;
    [discriminate |].
  destruct (search_step W fuel query options st) as (st1 & R & E). rewrite E in H.
  pose proof (refresh_wf W st st1 Hids Hwf R) as Hwf1.
  destruct (term_query W query) as [termQuery |].
  - destruct (search W fuel termQuery _ st1) as [basic st2 | |] eqn:N; try discriminate.
    inversion H; subst. eapply IH; eassumption.
  - now inversion H; subst.
Qed.

Lemma searchByEntity_keeps (W : World) (fuel : nat) (Inv : State -> Prop)
      (entityType : string) (entities : list string) :
  (forall query options st st' res,
      Inv st -> search W fuel query options st = Returned res st' -> Inv st') ->
  forall st st' res,
    Inv st ->
    searchByEntity (search W fuel) entityType entities st = Returned res st' ->
    Inv st'.
Proof.
  intros Hs. induction entities as [| entity rest IH]; intros st st' res Hi H;
    simpl in H.
  - now inversion H; subst.
  - unfold bind at 1 in H. destruct_run H.
    unfold bind at 1 in H. destruct_run H.
    unfold ret in H. inversion H; subst. eapply IH; [| eassumption].
    eapply Hs; eassumption.
Qed.

Lemma searchByFilters_keeps (W : World) (fuel : nat) (Inv : State -> Prop)
      (filters : NLP.Filters) (st st' : State) (res : list EnhancedSearchResult) :
  (forall query options st st' res,
      Inv st -> search W fuel query options st = Returned res st' -> Inv st') ->
  Inv st ->
  searchByFilters (search W fuel) filters st = Returned res st' ->
  Inv st'.
Proof.
  intros Hs Hi H. unfold searchByFilters in H.
  unfold bind at 1 in H. destruct_run H.
  unfold bind at 1 in H. destruct_run H.
  unfold ret in H. inversion H; subst.
  assert (I1 : Inv st0).
  { destruct (Js.truthy (NLP.location filters)); [| now inversion E; subst].
    unfold bind in E. destruct_run E. unfold ret in E. inversion E; subst.
    eapply Hs; eassumption. }
  destruct (Js.truthy (NLP.person filters)); [| now inversion E0; subst].
  unfold bind in E0. destruct_run E0. unfold ret in E0. inversion E0; subst.
  eapply Hs; eassumption.
Qed.

Lemma semanticSearch_keeps (W : World) (fuel : nat) (Inv : State -> Prop)
      (query : string) (modules : option (list string)) (st st' : State)
      (res : list EnhancedSearchResult) :
  (forall query options st st' res,
      Inv st -> search W fuel query options st = Returned res st' -> Inv st') ->
  Inv st ->
  semanticSearch W fuel query modules st = Returned res st' ->
  Inv st'.
Proof.
  intros Hs Hi H. apply semanticSearch_unfold in H
    as (people & places & filtered & st1 & st2 & Hp & Hl & Hf & _).
  assert (I1 : Inv st1).
  { destruct (NLP.people _); [now inversion Hp; subst |].
    eapply searchByEntity_keeps; eassumption. }
  assert (I2 : Inv st2).
  { destruct (NLP.places _); [now inversion Hl; subst |].
    eapply searchByEntity_keeps; eassumption. }
  eapply searchByFilters_keeps; eassumption.
Qed.

(** X7: when the record store keeps the identifiers of each collection
    distinct, the well-formedness of the index (one Fuse instance per
    collection name, distinct identifiers in each, every document tagged with
    its collection) holds of the service as constructed and is kept by every
    build, every search and every semantic search. *)
Theorem index_stays_well_formed (W : World) :
  store_ids_unique W ->
  wf_index (fuseInstances initial)
  /\ (forall st st', rebuildIndex W st = Returned tt st' -> wf_index (fuseInstances st'))
  /\ (forall fuel query options st st' res,
         wf_index (fuseInstances st) ->
         search W fuel query options st = Returned res st' ->
         wf_index (fuseInstances st'))
  /\ (forall fuel query modules st st' res,
         wf_index (fuseInstances st) ->
         semanticSearch W fuel query modules st = Returned res st' ->
         wf_index (fuseInstances st')).
Proof.
  intros Hids. split; [apply wf_index_initial |]. split; [| split].
  - intros st st' H. unfold rebuildIndex, bind, modify in H.
    match type of H with
    | buildSearchIndex W ?s = _ =>
        destruct (buildSearchIndex_spec W s) as (st2 & R & A & _)
    end.
    rewrite R in H. inversion H; subst. rewrite A. now apply wf_index_built.
  - intros fuel query options st st' res. now apply search_keeps_wf.
  - intros fuel query modules st st' res Hwf H.
    eapply (semanticSearch_keeps W fuel (fun s => wf_index (fuseInstances s)));
      [| exact Hwf | exact H].
    intros q o s s' r. now apply search_keeps_wf.
Qed.

Lemma index_stays_well_formed_witness :
  wf_index (fuseInstances
              (Sample.run_state (search Sample.world 1 "kyoto" None Sample.ready))).
Proof.
  destruct (index_stays_well_formed Sample.world sample_ids_unique) as (_ & _ & H & _).
  apply (H 1%nat "kyoto" None Sample.ready _
           (results_of (search Sample.world 1 "kyoto" None Sample.ready))
           sample_ready_wf).
  vm_compute. reflexivity.
Defined.

(** ** Rebuilding *)

Lemma built_instances_get (W : World) (names : list string) (storeName : string)
      (items : list SearchableItem) :
  NoDup names -> In storeName names -> getAll W storeName = Some items ->
  map_get storeName (built_instances W names) = Some (map (processItem storeName) items).
Proof.
  intros Hnd Hin G. apply map_get_In; [now apply built_instances_NoDup |].
  unfold built_instances. apply in_flat_map. exists storeName.
  split; [assumption |]. rewrite G. now left.
Qed.

(** X8: [rebuildIndex] always returns, and the index it leaves depends on
    the record store alone, not on the index before it: each collection
    that can be read has a Fuse instance over all its documents, whether
    FlexSearch accepted them or not, the document index holds the accepted
    ones, and the time of the last build is the time of the rebuild. *)
Theorem rebuildIndex_depends_on_store_only (W : World) (st other : State) :
  exists st' other',
    rebuildIndex W st = Returned tt st'
    /\ rebuildIndex W other = Returned tt other'
    /\ fuseInstances st' = fuseInstances other'
    /\ searchIndex st' = searchIndex other'
    /\ (forall storeName items,
           In storeName stores -> getAll W storeName = Some items ->
           map_get storeName (fuseInstances st') =
             Some (map (processItem storeName) items))
    /\ (forall storeName,
           getAll W storeName = None -> map_get storeName (fuseInstances st') = None)
    /\ searchIndex st' = Some (filter (flexAccepts W) (flat_map (loaded W) stores))
    /\ lastIndexUpdate st' = now W (clock st).
Proof.
  unfold rebuildIndex, bind, modify.
  match goal with
  | |- context [buildSearchIndex W ?s = Returned tt _ /\ buildSearchIndex W ?o = _ /\ _] =>
      destruct (buildSearchIndex_spec W s) as (st' & R & A & B & C & _);
      destruct (buildSearchIndex_spec W o) as (other' & R' & A' & B' & _)
  end.
  exists st', other'. rewrite R, R', A, A', B, B'.
  repeat split; try assumption.
  - intros storeName items Hin G. now apply built_instances_get; [apply stores_NoDup | |].
  - intros storeName G. apply map_get_absent. intros X.
    apply in_map_iff in X as ([m docs] & <- & X).
    apply built_instances_In in X as (_ & items & G' & _). simpl in G. congruence.
Qed.

(** ** The handler never rejects *)




(** ** Snippets and searchable text *)

Lemma split_run_no_terminator (s : string) :
  forall in_run piece, In piece (Js.split_run in_run s) -> Text.no_terminator piece = true.
Proof.
  induction s as [| c s IH]; intros in_run piece H; simpl in H.
  - destruct H as [<- | []]. reflexivity.
  - destruct (Js.is_terminator c) eqn:T.
    + destruct in_run; [now apply (IH true) |].
      destruct H as [<- | H]; [reflexivity | now apply (IH true)].
    + destruct (Js.split_run false s) as [| w ws] eqn:P.
      * destruct H as [<- | []]. unfold Text.no_terminator. simpl. now rewrite T.
      * destruct H as [<- | H].
        -- unfold Text.no_terminator. simpl. rewrite T. simpl.
           apply (IH false). rewrite P. now left.
        -- apply (IH false). rewrite P. now right.
Qed.

Lemma best_fold (words : list string) (sentences : list string) :
  forall best seen,
    (forall s, In s seen -> (count_matches words s <= snd best)%nat) ->
    ((fst best = EmptyString /\ snd best = 0%nat)
     \/ (In (fst best) seen /\ snd best = count_matches words (fst best)
         /\ (0 < snd best)%nat)) ->
    let final :=
      fold_left (fun best sentence =>
                   let matches := count_matches words sentence in
                   if (snd best <? matches)%nat then (sentence, matches) else best)
                sentences best in
    (forall s, In s (seen ++ sentences) -> (count_matches words s <= snd final)%nat)
    /\ ((fst final = EmptyString /\ snd final = 0%nat)
        \/ (In (fst final) (seen ++ sentences)
            /\ snd final = count_matches words (fst final) /\ (0 < snd final)%nat)).
Proof.
  induction sentences as [| x rest IH]; intros best seen Hmax Hbest; simpl.
  - rewrite app_nil_r. auto.
  - replace (seen ++ x :: rest) with ((seen ++ [x]) ++ rest) by now rewrite <- app_assoc.
    apply IH.
    + intros s Hs. apply in_app_or in Hs as [Hs | [<- | []]].
      * specialize (Hmax s Hs).
        destruct (snd best <? count_matches words x)%nat eqn:C; simpl; [| assumption].
        apply Nat.ltb_lt in C. lia.
      * destruct (snd best <? count_matches words x)%nat eqn:C; simpl; [lia |].
        apply Nat.ltb_ge in C. assumption.
    + destruct (snd best <? count_matches words x)%nat eqn:C; simpl.
      * right. apply Nat.ltb_lt in C. split; [apply in_or_app; right; now left |].
        split; [reflexivity | lia].
      * destruct Hbest as [H | (H1 & H2 & H3)]; [now left |].
        right. split; [apply in_or_app; now left | auto].
Qed.

(** X12: the sentence that [generateSnippet] shows is one of the pieces of
    the source text between the marks [.], [!] and [?], so it holds none of
    them; among the pieces it is one with the most query words; and when no
    query word occurs in any piece the snippet is empty. *)
Theorem snippet_sentence (it : SearchableItem) (query : string) :
  let words := Js.split " " (Js.toLowerCase query) in
  let sentences := Js.split_sentences (snippet_source it) in
  let best := bestSentence it query in
  (best = EmptyString \/ (In best sentences /\ (0 < count_matches words best)%nat))
  /\ Text.no_terminator best = true
  /\ (forall s, In s sentences -> (count_matches words s <= count_matches words best)%nat)
  /\ ((forall s, In s sentences -> count_matches words s = 0%nat) ->
      generateSnippet it query = EmptyString).
Proof.
  intros words sentences best.
  destruct (best_fold words sentences (EmptyString, 0%nat) [])
    as [Hmax Hbest]; [intros s [] | now left |].
  simpl app in Hmax, Hbest.
  assert (E : fst (fold_left
                     (fun best sentence =>
                        let matches := count_matches words sentence in
                        if (snd best <? matches)%nat then (sentence, matches) else best)
                     sentences (EmptyString, 0%nat)) = best) by reflexivity.
  rewrite E in Hbest.
  split; [| split; [| split]].
  - destruct Hbest as [[H _] | (H1 & H2 & H3)]; [now left |].
    right. split; [assumption | lia].
  - destruct Hbest as [[H _] | (H1 & _)]; [now rewrite H |].
    eapply split_run_no_terminator. exact H1.
  - intros s Hs. specialize (Hmax s Hs).
    destruct Hbest as [[_ H] | (_ & H & _)]; lia.
  - intros Hnone. unfold generateSnippet. fold best.
    destruct Hbest as [[H _] | (H1 & H2 & H3)]; [now rewrite H |].
    specialize (Hnone best H1). lia.
Qed.

Lemma snippet_sentence_witness :
  Search.title Sample.kinkaku = Some "Golden temple in Kyoto"
  /\ generateSnippet Sample.kinkaku "temple" = EmptyString.
Proof.
  split; [reflexivity |].
  destruct (snippet_sentence Sample.kinkaku "temple") as (_ & _ & _ & H).
  apply H. intros s Hs. vm_compute in Hs.
  repeat (destruct Hs as [<- | Hs]; [vm_compute; reflexivity |]). destruct Hs.
Defined.

Lemma lower_char_idem (c : ascii) : Js.lower_char (Js.lower_char c) = Js.lower_char c.
Proof. destruct c as [[] [] [] [] [] [] [] []]; reflexivity. Qed.

Lemma toLowerCase_idem (s : string) : Js.toLowerCase (Js.toLowerCase s) = Js.toLowerCase s.
Proof. induction s as [| c s IH]; simpl; [reflexivity | now rewrite lower_char_idem, IH]. Qed.

Lemma includes_join (sep part : string) (parts : list string) :
  In part parts -> Js.includes (Js.join sep parts) part = true.
Proof.
  intros H. apply includes_iff. induction parts as [| x rest IH]; [destruct H |].
  destruct H as [<- | H].
  - destruct rest as [| y rest].
    + exists EmptyString, EmptyString. simpl. generalize x.
      induction x0; simpl; [reflexivity | now f_equal].
    + exists EmptyString, (sep ++ Js.join sep (y :: rest))%string. reflexivity.
  - destruct (IH H) as (before & after & E). destruct rest as [| y rest]; [destruct H |].
    exists (x ++ sep ++ before)%string, after.
    change (Js.join sep (x :: y :: rest))
      with (x ++ sep ++ Js.join sep (y :: rest))%string.
    rewrite E. clear. induction x as [| c x IHx]; simpl.
    + induction sep as [| d sep IHs]; simpl; [reflexivity | now f_equal].
    + now f_equal.
Qed.

(** X13: the searchable text that the build computes for a record is in
    lower case, and every non-empty field among title, name, description,
    content and location, and every non-empty tag, occurs in it in lower
    case; so a record can be found by any of them. *)
Theorem searchable_text_covers_fields (it : SearchableItem) (part : string) :
  In part ([Js.or_empty (title it); Js.or_empty (name it);
            Js.or_empty (description it); Js.or_empty (content it);
            Js.or_empty (location it)] ++ tags it) ->
  part <> EmptyString ->
  Js.includes (createSearchableText it) (Js.toLowerCase part) = true
  /\ Js.toLowerCase (createSearchableText it) = createSearchableText it
  /\ forall storeName,
       searchableText (processItem storeName it) = Some (createSearchableText it).
Proof.
  intros Hin Hne. unfold createSearchableText.
  split; [| split; [apply toLowerCase_idem | reflexivity]].
  apply includes_ignoring_case.
  assert (K : In part (filter (fun p => Js.truthy (Some p))
                              ([Js.or_empty (title it); Js.or_empty (name it);
                                Js.or_empty (description it); Js.or_empty (content it);
                                Js.or_empty (location it)] ++ tags it))).
  { apply filter_In. split; [assumption |]. destruct part; [contradiction | reflexivity]. }
  apply (includes_join " ") in K. apply includes_iff in K as (before & after & E).
  exists before, part, after. split; [exact E | reflexivity].
Qed.

Lemma searchable_text_covers_fields_witness :
  Js.includes (createSearchableText Sample.maria) "guide" = true.
Proof.
  apply (searchable_text_covers_fields Sample.maria "guide").
  - simpl. tauto.
  - discriminate.
Defined.

(** ** Search terms, tags, topics and categories *)

Lemma length_toLowerCase (s : string) : String.length (Js.toLowerCase s) = String.length s.
Proof. induction s as [| c s IH]; simpl; [reflexivity | now rewrite IH]. Qed.

(** X14: the search terms of a query are the lowercased nouns and
    adjectives of more than two characters, each once; every term is in lower
    case and keeps more than two characters; and [generateTags] never returns
    the same tag twice. *)
Theorem terms_and_tags_distinct (nlp : string -> NLP.Doc) (text : string)
        (type : option string) :
  let terms := NLP.searchTerms (NLP.parseSearchQuery nlp text) in
  NoDup terms
  /\ (forall t, In t terms <->
                exists w, In w (NLP.doc_nouns (nlp text) ++ NLP.doc_adjectives (nlp text))
                          /\ (2 < String.length w)%nat /\ t = Js.toLowerCase w)
  /\ (forall t, In t terms -> (2 < String.length t)%nat /\ Js.toLowerCase t = t)
  /\ NoDup (NLP.generateTags nlp text type).
Proof.
  intros terms.
  assert (Spec : forall t, In t terms <->
                   exists w, In w (NLP.doc_nouns (nlp text) ++ NLP.doc_adjectives (nlp text))
                             /\ (2 < String.length w)%nat /\ t = Js.toLowerCase w).
  { intros t. unfold terms. cbn [NLP.searchTerms NLP.parseSearchQuery].
    unfold NLP.extractSearchTerms. rewrite add_lowered_In, add_lowered_In.
    unfold NLP.longer_than_two. split.
    - intros [[[] | (w & Hw & K & ->)] | (w & Hw & K & ->)];
        exists w; (split; [apply in_or_app; auto |]);
        (split; [now apply Nat.ltb_lt | reflexivity]).
    - intros (w & Hw & K & ->). apply Nat.ltb_lt in K.
      apply in_app_or in Hw as [Hw | Hw]; [left; right | right]; eauto. }
  split; [| split; [exact Spec | split]].
  - unfold terms. cbn [NLP.searchTerms NLP.parseSearchQuery].
    unfold NLP.extractSearchTerms. apply add_lowered_NoDup, add_lowered_NoDup. constructor.
  - intros t Ht. apply Spec in Ht as (w & _ & K & ->).
    rewrite length_toLowerCase, toLowerCase_idem. auto.
  - unfold NLP.generateTags. rewrite slice0_firstn by lia. apply NoDup_firstn.
    unfold NLP.tag_set. repeat apply add_all_NoDup.
    unfold NLP.noun_tags. apply add_lowered_NoDup. constructor.
Qed.

Lemma includes_grows (before small after kw : string) :
  Js.includes small kw = true ->
  Js.includes (before ++ small ++ after) kw = true.
Proof.
  intros H. apply includes_iff in H as (x & y & ->). apply includes_iff.
  exists (before ++ x)%string, (y ++ after)%string.
  clear. induction before as [| c b IH]; simpl; [| now f_equal].
  induction x as [| c x IHx]; simpl; [| now f_equal].
  induction kw as [| c kw IHk]; simpl; [reflexivity | now f_equal].
Qed.

Lemma some_keyword_grows (before small after : string) (keywords : list string) :
  NLP.some_keyword (Js.toLowerCase small) keywords = true ->
  NLP.some_keyword (Js.toLowerCase (before ++ small ++ after)) keywords = true.
Proof.
  rewrite !some_keyword_iff. intros (kw & Hk & H). exists kw. split; [assumption |].
  rewrite !toLowerCase_app. now apply includes_grows.
Qed.

Lemma categories_filter (text : string) (table : list (string * list string))
      (acc : list string) :
  fold_left
    (fun categories entry =>
       if NLP.some_keyword text (snd entry) then categories ++ [fst entry]
       else categories) table acc =
  acc ++ map fst (filter (fun entry => NLP.some_keyword text (snd entry)) table).
Proof.
  revert acc. induction table as [| entry table IH]; intros acc; simpl.
  - now rewrite app_nil_r.
  - rewrite IH. destruct (NLP.some_keyword text (snd entry)); simpl; [| reflexivity].
    now rewrite <- app_assoc.
Qed.

(** X15: topics and categories come in the order of their tables, each
    label at most once, and a text embedded in a longer one passes all its
    topics and categories on to it: adding words never removes a label. *)
Theorem labels_grow_with_text (small big : NLP.Doc) (before after : string) :
  NLP.doc_text big = (before ++ NLP.doc_text small ++ after)%string ->
  incl (NLP.categorizeContent small) (NLP.categorizeContent big)
  /\ incl (NLP.extractTopics small) (NLP.extractTopics big)
  /\ NoDup (NLP.categorizeContent big)
  /\ NoDup (NLP.extractTopics big)
  /\ NLP.categorizeContent big =
       map fst (filter (fun entry =>
                          NLP.some_keyword (Js.toLowerCase (NLP.doc_text big)) (snd entry))
                       NLP.categoryMap).
Proof.
  intros E. split; [| split; [| split; [| split]]].
  - intros label H. unfold NLP.categorizeContent in *.
    apply categories_fold in H as [[] | (kws & Hk & S)].
    apply categories_fold. right. exists kws. split; [assumption |].
    rewrite E. now apply some_keyword_grows.
  - intros label H. unfold NLP.extractTopics in *.
    apply topics_fold in H as [[] | (kws & Hk & S)].
    apply topics_fold. right. exists kws. split; [assumption |].
    rewrite E. now apply some_keyword_grows.
  - unfold NLP.categorizeContent. rewrite categories_filter.
    change ([] ++ ?l) with l. apply NoDup_map_filter.
    repeat constructor; simpl; intuition discriminate.
  - unfold NLP.extractTopics.
    generalize (Js.toLowerCase (NLP.doc_text big)). intros text.
    assert (G : forall table acc,
               NoDup acc ->
               NoDup (fold_left
                        (fun topics (entry : string * list string) =>
                           if NLP.some_keyword text (snd entry)
                           then Js.set_add (fst entry) topics else topics) table acc)).
    { induction table as [| entry table IH]; intros acc H; simpl; [assumption |].
      apply IH. destruct (NLP.some_keyword text (snd entry));
        [now apply set_add_NoDup | assumption]. }
    apply G. constructor.
  - unfold NLP.categorizeContent. now rewrite categories_filter.
Qed.

Lemma labels_grow_with_text_witness :
  incl (NLP.categorizeContent (Sample.quiet_nlp "great"))
       (NLP.categorizeContent (Sample.quiet_nlp "A great museum!"))
  /\ NLP.categorizeContent (Sample.quiet_nlp "great") = ["food"]
  /\ NLP.categorizeContent (Sample.quiet_nlp "A great museum!") = ["food"; "culture"].
Proof.
  split; [| split; reflexivity].
  apply (labels_grow_with_text (Sample.quiet_nlp "great")
           (Sample.quiet_nlp "A great museum!") "A " " museum!").
  reflexivity.
Defined.

(** ** Filters *)

Lemma last_match_fold (text : string) (table : list (string * string)) :
  forall acc t,
    fold_left (fun (acc : option string) (entry : string * string) =>
                 if Js.includes text (fst entry) then Some (snd entry) else acc)
              table acc = Some t <->
    (exists before keyword after,
        table = before ++ (keyword, t) :: after
        /\ Js.includes text keyword = true
        /\ forall k' t', In (k', t') after -> Js.includes text k' = false)
    \/ (acc = Some t
        /\ forall k' t', In (k', t') table -> Js.includes text k' = false).
Proof.
  induction table as [| [k0 t0] table IH]; intros acc t; simpl.
  - split.
    + intros ->. right. split; [reflexivity | intros ? ? []].
    + intros [(before & kw & after & E & _) | [-> _]]; [| reflexivity].
      destruct before; discriminate.
  - rewrite IH. split.
    + intros [(before & kw & after & -> & M & N) | [A N]].
      * left. exists ((k0, t0) :: before), kw, after. auto.
      * destruct (Js.includes text k0) eqn:M.
        -- left. inversion A; subst. exists [], k0, table. auto.
        -- right. split; [assumption |].
           intros k' t' [X | X]; [inversion X; subst; assumption | eauto].
    + intros [(before & kw & after & E & M & N) | [-> N]].
      * destruct before as [| e before]; simpl in E; inversion E; subst.
        -- right. rewrite M. auto.
        -- left. exists before, kw, after. auto.
      * right. rewrite (N k0 t0 (or_introl eq_refl)). split; [reflexivity |].
        intros k' t' X. apply (N k' t'). now right.
Qed.

(** X16: among the type keywords temple, restaurant, museum, hotel and
    flight that occur in the lowercased query, the one listed last decides
    the [type] filter; likewise "cheap" or "budget" overrides "expensive"
    and "costly", leaving [{ max: 20 }] alone, and "this month" overrides
    "last week". *)
Theorem later_rule_wins (doc : NLP.Doc) (query : string) :
  let text := Js.toLowerCase query in
  let filters := NLP.extractFilters doc query in
  (forall t, NLP.type filters = Some t <->
             exists before keyword after,
               NLP.typeKeywords = before ++ (keyword, t) :: after
               /\ Js.includes text keyword = true
               /\ forall k' t', In (k', t') after -> Js.includes text k' = false)
  /\ (Js.includes text "cheap" || Js.includes text "budget" = true ->
      NLP.amount filters =
        Some {| NLP.amount_min := None; NLP.amount_max := Some 20%Z |})
  /\ (Js.includes text "this month" = true ->
      NLP.dateRange filters =
        Some {| NLP.range_start := Some NLP.FirstOfMonth; NLP.range_end := None |}).
Proof.
  intros text filters. split; [| split].
  - intros t. unfold filters, NLP.extractFilters. cbn [NLP.type]. fold text.
    rewrite last_match_fold. split; [| now left].
    intros [H | [D _]]; [exact H | discriminate].
  - intros H. unfold filters, NLP.extractFilters. cbn [NLP.amount]. fold text.
    now rewrite H.
  - intros H. unfold filters, NLP.extractFilters. cbn [NLP.dateRange]. fold text.
    now rewrite H.
Qed.

Lemma later_rule_wins_witness :
  let filters := NLP.extractFilters (Sample.quiet_nlp "")
                   "Expensive hotel near the temple, or a budget flight this month" in
  NLP.amount filters = Some {| NLP.amount_min := None; NLP.amount_max := Some 20%Z |}
  /\ NLP.type filters = Some "transport".
Proof.
  intros filters.
  destruct (later_rule_wins (Sample.quiet_nlp "")
              "Expensive hotel near the temple, or a budget flight this month")
    as (T & A & _).
  split; [apply A; reflexivity |].
  apply T. exists [("temple", "culture"); ("restaurant", "food"); ("museum", "culture");
                   ("hotel", "accommodation")], "flight", [].
  split; [reflexivity |]. split; [reflexivity | intros ? ? []].
Defined.

(** ** The basic search of the record store *)

Lemma collect_spec (getAll : string -> option (list Database.Stored))
      (terms : list string) (names : list string) :
  forall acc,
    (forall s, In s names -> getAll s <> None) ->
    Database.collect getAll terms names acc =
      Ok (acc ++ flat_map (fun s => match getAll s with
                                    | Some items => Database.store_results terms s items
                                    | None => []
                                    end) names).
Proof.
  induction names as [| n names IH]; intros acc Hall; simpl.
  - now rewrite app_nil_r.
  - destruct (getAll n) as [items |] eqn:G.
    + rewrite IH; [now rewrite <- app_assoc |]. intros s Hs. apply Hall. now right.
    + exfalso. apply (Hall n); [now left | assumption].
Qed.

Lemma collect_fails (getAll : string -> option (list Database.Stored))
      (terms : list string) (names : list string) (failing : string) :
  forall acc,
    In failing names -> getAll failing = None ->
    exists e, Database.collect getAll terms names acc = Raise e.
Proof.
  induction names as [| n names IH]; intros acc Hin G; [destruct Hin |]. simpl.
  destruct (getAll n) as [items |] eqn:Gn; [| eauto].
  destruct Hin as [-> | Hin]; [congruence | now apply IH].
Qed.

(** X17: unlike the index build, the basic search has no guard around its
    reads: it rejects as soon as the read of one collection rejects, even
    when the others hold matching records, and it returns a list exactly
    when every read succeeds. *)
Theorem universalSearch_needs_every_store
        (getAll : string -> option (list Database.Stored)) (timeOf : string -> Z)
        (query : string) :
  (exists e, Database.universalSearch getAll timeOf query = Raise e)
  <-> exists storeName, In storeName Database.stores /\ getAll storeName = None.
Proof.
  unfold Database.universalSearch. split.
  - intros (e & H).
    destruct (existsb (fun s => match getAll s with None => true | Some _ => false end)
                      Database.stores) eqn:X.
    + apply existsb_exists in X as (s & Hs & G). exists s. split; [assumption |].
      destruct (getAll s); [discriminate | reflexivity].
    + rewrite collect_spec in H; [discriminate |].
      intros s Hs G.
      assert (Y : existsb (fun s => match getAll s with None => true | Some _ => false end)
                          Database.stores = true).
      { apply existsb_exists. exists s. split; [assumption | now rewrite G]. }
      congruence.
  - intros (s & Hs & G).
    destruct (collect_fails getAll (Js.split " " (Js.toLowerCase query))
                            Database.stores s [] Hs G) as (e & E).
    exists e. now rewrite E.
Qed.

Lemma universalSearch_needs_every_store_witness :
  (exists e, Database.universalSearch Sample.broken_notebook Sample.day_of "kyoto" = Raise e)
  /\ exists found, Database.universalSearch Sample.notebook Sample.day_of "kyoto" = Ok found
                   /\ List.length found = 2%nat.
Proof.
  split.
  - apply (proj2 (universalSearch_needs_every_store Sample.broken_notebook Sample.day_of
                    "kyoto")).
    exists "gearItems". split; [unfold Database.stores; simpl; tauto | reflexivity].
  - eexists. split; [vm_compute; reflexivity | reflexivity].
Defined.

Lemma insert_result_perm (timeOf : string -> Z) (x : Database.Scored)
      (l : list Database.Scored) :
  Permutation (Database.insert_result timeOf x l) (x :: l).
Proof.
  induction l as [| y rest IH]; simpl; [reflexivity |].
  destruct (0 <? Database.compare_results timeOf x y)%Z; [| reflexivity].
  rewrite IH. apply perm_swap.
Qed.

Lemma sort_results_perm (timeOf : string -> Z) (l : list Database.Scored) :
  Permutation (Database.sort_results timeOf l) l.
Proof.
  unfold Database.sort_results. induction l as [| x l IH]; simpl; [reflexivity |].
  rewrite insert_result_perm. now constructor.
Qed.

Lemma ranked_trans (timeOf : string -> Z) (a b c : Database.Scored) :
  Database.ranked timeOf a b -> Database.ranked timeOf b c -> Database.ranked timeOf a c.
Proof. unfold Database.ranked. lia. Qed.

Lemma compare_results_cases (timeOf : string -> Z) (x y : Database.Scored) :
  if (0 <? Database.compare_results timeOf x y)%Z
  then Database.ranked timeOf y x
  else Database.ranked timeOf x y.
Proof.
  unfold Database.compare_results, Database.ranked.
  destruct (Database._searchScore x =? Database._searchScore y)%Z eqn:S; simpl.
  - apply Z.eqb_eq in S.
    destruct (0 <? Database.stamp timeOf y - Database.stamp timeOf x)%Z eqn:C;
      [apply Z.ltb_lt in C | apply Z.ltb_ge in C]; lia.
  - apply Z.eqb_neq in S.
    destruct (0 <? Database._searchScore y - Database._searchScore x)%Z eqn:C;
      [apply Z.ltb_lt in C | apply Z.ltb_ge in C]; lia.
Qed.

Lemma insert_result_sorted (timeOf : string -> Z) (x : Database.Scored)
      (l : list Database.Scored) :
  StronglySorted (Database.ranked timeOf) l ->
  StronglySorted (Database.ranked timeOf) (Database.insert_result timeOf x l).
Proof.
  induction l as [| y rest IH]; simpl; intros Hs.
  - repeat constructor.
  - apply StronglySorted_inv in Hs as [Hrest Hy].
    pose proof (compare_results_cases timeOf x y) as C.
    destruct (0 <? Database.compare_results timeOf x y)%Z.
    + constructor; [now apply IH |].
      apply (Permutation_Forall (Permutation_sym (insert_result_perm timeOf x rest))).
      now constructor.
    + constructor; [now constructor |]. constructor; [exact C |].
      eapply Forall_impl; [| exact Hy]. intros z Hz.
      eapply ranked_trans; eassumption.
Qed.

Lemma universalSearch_members
      (getAll : string -> option (list Database.Stored)) (timeOf : string -> Z)
      (query : string) (found : list Database.Scored) :
  Database.universalSearch getAll timeOf query = Ok found ->
  let terms := Js.split " " (Js.toLowerCase query) in
  exists all,
    found = Database.sort_results timeOf all
    /\ forall r, In r all <->
         exists items,
           In (Database._type r) Database.stores
           /\ getAll (Database._type r) = Some items
           /\ In (Database.stored r) items
           /\ (exists term, In term terms
                            /\ Js.includes (Database.searchableText (Database.stored r))
                                           term = true)
           /\ Database._searchScore r =
                Database.calculateSearchScore (Database.stored r) terms.
Proof.
  intros H terms. unfold Database.universalSearch in H. fold terms in H.
  assert (All : forall s, In s Database.stores -> getAll s <> None).
  { intros s Hs G.
    destruct (collect_fails getAll terms Database.stores s [] Hs G) as (e & E).
    rewrite E in H. discriminate. }
  rewrite (collect_spec getAll terms Database.stores [] All), app_nil_l in H.
  set (all := flat_map _ Database.stores) in H.
  exists all. split; [congruence |]. clear H.
  intros r. split.
  - intros Hr. unfold all in Hr. apply in_flat_map in Hr as (s & Hs & Hr).
    destruct (getAll s) as [items |] eqn:G; [| destruct Hr].
    unfold Database.store_results in Hr. apply in_map_iff in Hr as (it & <- & Hit).
    apply filter_In in Hit as [Hit M]. simpl. exists items.
    repeat split; try assumption.
    unfold Database.matches in M. apply existsb_exists in M as (term & Ht & I). eauto.
  - intros (items & Hs & G & Hit & (term & Ht & I) & Sc).
    unfold all. apply in_flat_map. exists (Database._type r). split; [assumption |].
    rewrite G.
    unfold Database.store_results. apply in_map_iff. exists (Database.stored r). split.
    + destruct r as [it ty sc]. simpl in *. now rewrite Sc.
    + apply filter_In. split; [assumption |].
      unfold Database.matches. apply existsb_exists. eauto.
Qed.

(** X18: when every read succeeds, the basic search returns exactly the
    stored records in whose searchable text (title, name, description,
    content, location, notes and tags, lowercased) some word of the
    lowercased query occurs, each tagged with its collection and scored, a
    higher score first and among equal scores the later date first. *)
Theorem universalSearch_results
        (getAll : string -> option (list Database.Stored)) (timeOf : string -> Z)
        (query : string) (found : list Database.Scored) :
  Database.universalSearch getAll timeOf query = Ok found ->
  let terms := Js.split " " (Js.toLowerCase query) in
  (forall r, In r found <->
             exists items,
               In (Database._type r) Database.stores
               /\ getAll (Database._type r) = Some items
               /\ In (Database.stored r) items
               /\ (exists term, In term terms
                                /\ Js.includes (Database.searchableText (Database.stored r))
                                               term = true)
               /\ Database._searchScore r =
                    Database.calculateSearchScore (Database.stored r) terms)
  /\ StronglySorted (Database.ranked timeOf) found.
Proof.
  intros H terms. apply universalSearch_members in H as (all & -> & M). split.
  - intros r. unfold terms. rewrite <- (M r). split; intros Hr.
    + now apply (Permutation_in _ (sort_results_perm timeOf _)) in Hr.
    + now apply (Permutation_in _ (Permutation_sym (sort_results_perm timeOf _))).
  - unfold Database.sort_results. clear M.
    induction all as [| x l IH]; simpl; [constructor |].
    now apply insert_result_sorted.
Qed.

Lemma universalSearch_results_witness :
  exists found,
    Database.universalSearch Sample.notebook Sample.day_of "kyoto guide" = Ok found
    /\ map Database._type found = ["travelPins"; "people"]
    /\ StronglySorted (Database.ranked Sample.day_of) found.
Proof.
  eexists. split; [vm_compute; reflexivity |]. split; [reflexivity |].
  eapply (universalSearch_results Sample.notebook Sample.day_of "kyoto guide").
  vm_compute. reflexivity.
Defined.

Lemma includes_empty (s : string) : Js.includes s EmptyString = true.
Proof. destruct s; reflexivity. Qed.

Lemma split_trailing_space (s : string) :
  exists first rest, Js.split " " (s ++ " ") = first :: rest ++ [EmptyString].
Proof.
  induction s as [| c s (first & rest & IH)]; simpl.
  - exists EmptyString, []. reflexivity.
  - rewrite IH. destruct (Ascii.eqb c " ").
    + exists EmptyString, (first :: rest). reflexivity.
    + exists (String c first), rest. reflexivity.
Qed.

(** X19: a query that ends in a space has the empty word among its search
    terms, and the empty word occurs in every text: when the reads succeed,
    the basic search then returns every record of every collection, whatever
    the other words are. *)
Theorem trailing_space_matches_everything
        (getAll : string -> option (list Database.Stored)) (timeOf : string -> Z)
        (typed : string) (found : list Database.Scored) :
  Database.universalSearch getAll timeOf (typed ++ " ") = Ok found ->
  forall storeName items it,
    In storeName Database.stores -> getAll storeName = Some items -> In it items ->
    exists r, In r found /\ Database.stored r = it /\ Database._type r = storeName.
Proof.
  intros H storeName items it Hs G Hit.
  apply universalSearch_members in H as (all & -> & M).
  set (terms := Js.split " " (Js.toLowerCase (typed ++ " "))) in *.
  exists {| Database.stored := it; Database._type := storeName;
            Database._searchScore := Database.calculateSearchScore it terms |}.
  split; [| split; reflexivity].
  apply (Permutation_in _ (Permutation_sym (sort_results_perm timeOf _))).
  apply M. simpl. exists items. repeat split; try assumption.
  exists EmptyString. split; [| apply includes_empty].
  unfold terms. rewrite toLowerCase_app.
  destruct (split_trailing_space (Js.toLowerCase typed)) as (first & rest & E).
  change (Js.toLowerCase " ") with " ". rewrite E.
  right. apply in_or_app. right. now left.
Qed.

Lemma trailing_space_matches_everything_witness :
  exists r found,
    Database.universalSearch Sample.notebook Sample.day_of "zzz " = Ok found
    /\ List.length found = 2%nat
    /\ In r found
    /\ Database.stored r = {| Database.fields := Sample.maria; Database.notes := None |}.
Proof.
  destruct (trailing_space_matches_everything Sample.notebook Sample.day_of "zzz"
              (match Database.universalSearch Sample.notebook Sample.day_of "zzz " with
               | Ok found => found
               | Raise _ => []
               end) ltac:(vm_compute; reflexivity) "people"
              [{| Database.fields := Sample.maria; Database.notes := None |}]
              {| Database.fields := Sample.maria; Database.notes := None |})
    as (r & Hr & E & _).
  - unfold Database.stores. simpl. tauto.
  - reflexivity.
  - now left.
  - exists r. eexists. split; [vm_compute; reflexivity |].
    split; [reflexivity |]. split; [exact Hr | exact E].
Defined.

Lemma term_score_range (it : Database.Stored) (term : string) :
  (0 <= Database.term_score it term <= 6)%Z.
Proof.
  unfold Database.term_score.
  repeat match goal with |- context [if ?c then _ else _] => destruct c end; lia.
Qed.

Lemma score_fold (it : Database.Stored) (terms : list string) :
  forall start,
    (start <= fold_left (fun score term => (score + Database.term_score it term)%Z) terms start
     <= start + 6 * Z.of_nat (List.length terms))%Z
    /\ (fold_left (fun score term => (score + Database.term_score it term)%Z) terms start
        = start <-> forall term, In term terms -> Database.term_score it term = 0%Z).
Proof.
  induction terms as [| t terms IH]; intros start.
  - simpl. split; [lia |]. split; [intros _ ? [] | reflexivity].
  - cbn [fold_left]. destruct (IH (start + Database.term_score it t)%Z) as [B Z0].
    pose proof (term_score_range it t) as R.
    split; [cbn [List.length]; lia |]. split.
    + intros E term [<- | Hin].
      * lia.
      * apply Z0; [lia | assumption].
    + intros Hall. pose proof (Hall t (or_introl eq_refl)) as Ht.
      rewrite Ht in *. replace (start + 0)%Z with start in * by lia.
      apply Z0. intros term Hin. apply Hall. now right.
Qed.

(** X20: the score that the basic search gives a record lies between 0
    and six times the number of search terms, and it is 0 exactly when every
    term scores 0, that is, occurs neither in the title or name, nor in the
    description or content, nor in a tag; a record found through its notes
    alone is returned with the score 0. *)
Theorem search_score_range (it : Database.Stored) (terms : list string) :
  (0 <= Database.calculateSearchScore it terms <= 6 * Z.of_nat (List.length terms))%Z
  /\ (Database.calculateSearchScore it terms = 0%Z <->
      forall term, In term terms -> Database.term_score it term = 0%Z)
  /\ forall term,
       (Database.term_score it term = 0%Z <->
        Js.includes
          (Js.toLowerCase
             (Js.or_empty (Js.or_else (Search.title (Database.fields it))
                             (Js.or_else (Search.name (Database.fields it)) (Some "")))))
          term = false
        /\ Js.includes
             (Js.toLowerCase
                (Js.or_empty
                   (Js.or_else (Search.description (Database.fields it))
                      (Js.or_else (Search.content (Database.fields it)) (Some "")))))
             term = false
        /\ existsb (fun tag => Js.includes (Js.toLowerCase tag) term)
                   (Search.tags (Database.fields it)) = false).
Proof.
  unfold Database.calculateSearchScore.
  destruct (score_fold it terms 0%Z) as [B Z0].
  split; [lia | split; [exact Z0 |]].
  intros term. unfold Database.term_score.
  repeat match goal with |- context [if ?c then _ else _] => destruct c end;
    split; try lia; try (intros (? & ? & ?); discriminate); auto.
Qed.

(** ** Where semantic results come from *)






(** ** The handler of the search box *)

(** X22: a query of at most 8 characters, or one whose local search finds
    five results or more, never reaches the enrichment endpoint: whatever
    the endpoint would answer, the handler does the same.  A query of at most
    5 characters does not touch the search service either: the handler shows
    the empty list when the trimmed query has fewer than 2 characters, and
    otherwise the list of the basic search of the record store; when that
    search rejects, [setResults] is not called and the results on display
    stay. *)
Theorem short_queries_stay_local (W : World)
        (fetch other : string -> list EnhancedSearchResult -> AI.FetchResult)
        (fuel : nat) (query : string) (st : State) :
  ((String.length query <= 8)%nat ->
   handleSearch W fetch fuel query st = handleSearch W other fuel query st)
  /\ (forall localResults st',
         local_search W fuel query st = Returned localResults st' ->
         (5 <= List.length localResults)%nat ->
         (2 <= String.length (Js.trim query))%nat ->
         handleSearch W fetch fuel query st = Returned (Some localResults) st')
  /\ ((String.length query <= 5)%nat ->
      handleSearch W fetch fuel query st =
        Returned (if (String.length (Js.trim query) <? 2)%nat then Some []
                  else match universalSearch W query with
                       | Ok basicResults => Some basicResults
                       | Raise _ => None
                       end) st
      /\ forall before,
           shown_after before (handleSearch W fetch fuel query st) =
             if (String.length (Js.trim query) <? 2)%nat then []
             else match universalSearch W query with
                  | Ok basicResults => basicResults
                  | Raise _ => before
                  end).
Proof.
  split; [| split].
  - intros L. unfold handleSearch.
    destruct (String.length (Js.trim query) <? 2)%nat; [reflexivity |].
    unfold try_catch, bind.
    destruct (local_search W fuel query st); try reflexivity.
    unfold enrich. replace (8 <? String.length query)%nat with false; [reflexivity |].
    symmetry. apply Nat.ltb_ge. assumption.
  - intros localResults st' H L T. unfold handleSearch.
    replace (String.length (Js.trim query) <? 2)%nat with false
      by (symmetry; apply Nat.ltb_ge; assumption).
    unfold try_catch at 1, bind. rewrite H. unfold enrich.
    replace (List.length localResults <? 5)%nat with false
      by (symmetry; apply Nat.ltb_ge; assumption).
    rewrite andb_false_r. reflexivity.
  - intros L.
    assert (E : handleSearch W fetch fuel query st =
                Returned (if (String.length (Js.trim query) <? 2)%nat then Some []
                          else match universalSearch W query with
                               | Ok basicResults => Some basicResults
                               | Raise _ => None
                               end) st).
    { unfold handleSearch.
      destruct (String.length (Js.trim query) <? 2)%nat; [reflexivity |].
      unfold try_catch at 1, bind, local_search.
      replace (10 <? String.length query)%nat with false
        by (symmetry; apply Nat.ltb_ge; lia).
      replace (5 <? String.length query)%nat with false
        by (symmetry; apply Nat.ltb_ge; lia).
      simpl. unfold fallback, try_catch, bind, database_universalSearch.
      destruct (universalSearch W query) as [basicResults | e]; [| reflexivity].
      unfold ret, enrich.
      replace (8 <? String.length query)%nat with false
        by (symmetry; apply Nat.ltb_ge; lia).
      reflexivity. }
    split; [exact E |]. intros before. rewrite E. unfold shown_after.
    destruct (String.length (Js.trim query) <? 2)%nat; [reflexivity |].
    destruct (universalSearch W query); reflexivity.
Qed.

(** "temple" has six characters: the fuzzy search answers, and the endpoint
    is not asked.  "maria" has five: the basic search answers, and as it
    rejects with the [gearItems] read [setResults] is not called. *)
Lemma short_queries_stay_local_witness :
  handleSearch Sample.world (fun _ _ => AI.Rejected) 1 "temple" Sample.ready =
    handleSearch Sample.world
                 (fun q _ => AI.Response true
                               (AI.Json true {| AI.searchTerms := Some ["kyoto"];
                                                AI.filters := None;
                                                AI.suggestions := None |} None))
                 1 "temple" Sample.ready
  /\ List.length (shown_after [] (handleSearch Sample.world (fun _ _ => AI.Rejected) 1
                                               "temple" Sample.ready)) = 1%nat
  /\ handleSearch Sample.world (fun _ _ => AI.Rejected) 1 "maria" Sample.ready =
       Returned None Sample.ready.
Proof.
  split; [| split; [vm_compute; reflexivity |]].
  - apply (proj1 (short_queries_stay_local Sample.world (fun _ _ => AI.Rejected)
                    (fun q _ => AI.Response true
                                  (AI.Json true {| AI.searchTerms := Some ["kyoto"];
                                                   AI.filters := None;
                                                   AI.suggestions := None |} None))
                    1 "temple" Sample.ready)).
    simpl. lia.
  - destruct (short_queries_stay_local Sample.world (fun _ _ => AI.Rejected)
                (fun _ _ => AI.Rejected) 1 "maria" Sample.ready) as (_ & _ & H).
    destruct H as [H _]; [simpl; lia |]. rewrite H. reflexivity.
Defined.

(** X23: the enrichment step never shortens the list of results: what it
    returns has at least as many entries as the local results it was given,
    whatever the endpoint answers. *)
Theorem enrichment_never_shrinks (W : World)
        (fetch : string -> list EnhancedSearchResult -> AI.FetchResult)
        (fuel : nat) (query : string) (searchResults final : list EnhancedSearchResult)
        (st st' : State) :
  enrich W fetch fuel query searchResults st = Returned final st' ->
  (List.length searchResults <= List.length final)%nat.
Proof.
  unfold enrich.
  destruct ((8 <? String.length query)%nat && (List.length searchResults <? 5)%nat);
    [| unfold ret; intros E; inversion E; lia].
  unfold try_catch, enhance.
  destruct (AI.enhancedSearch fetch query (Js.slice0 3 searchResults)) as [analysis |];
    [| unfold throw, ret; intros E; inversion E; lia].
  destruct (AI.searchTerms analysis) as [[| term terms] |];
    try (unfold ret; intros E; inversion E; lia).
  unfold bind.
  destruct (search W fuel (Js.join " " (term :: terms)) None st)
    as [enhanced s | e s |]; try discriminate.
  - destruct (List.length searchResults <? List.length enhanced)%nat eqn:L;
      unfold ret; intros E; inversion E; subst; [| lia].
    apply Nat.ltb_lt in L. lia.
  - unfold ret. intros E. inversion E. lia.
Qed.

Lemma enrichment_never_shrinks_witness :
  let answer := fun (_ : string) (_ : list EnhancedSearchResult) =>
                  AI.Response true
                    (AI.Json true {| AI.searchTerms := Some ["kyoto"];
                                     AI.filters := None; AI.suggestions := None |} None) in
  let localResults := results_of (search Sample.world 1 "golden temple" None Sample.ready) in
  List.length localResults = 1%nat
  /\ List.length (results_of (enrich Sample.world answer 1 "golden temple" localResults
                                     Sample.ready)) = 2%nat
  /\ (List.length localResults
      <= List.length (results_of (enrich Sample.world answer 1 "golden temple" localResults
                                         Sample.ready)))%nat.
Proof.
  intros answer localResults.
  split; [vm_compute; reflexivity |]. split; [vm_compute; reflexivity |].
  apply (enrichment_never_shrinks Sample.world answer 1 "golden temple" localResults _
           Sample.ready
           (Sample.run_state (enrich Sample.world answer 1 "golden temple" localResults
                                     Sample.ready))).
  vm_compute. reflexivity.
Defined.


(** ** Refreshing a stale index *)

(** X24: [search] rebuilds the index before it looks anything up exactly
    when more than five minutes have passed since the last build: then the
    fuzzy tier goes through the new instances of every readable collection
    and the time of the build is recorded; at five minutes or less the
    instances are those the state had. *)
Theorem stale_index_is_rebuilt (W : World) (st : State) :
  ((indexUpdateInterval < now W (clock st) - lastIndexUpdate st)%Z ->
   index_searched W st = built_instances W stores
   /\ exists st1, refresh_if_stale W st = Returned tt st1
                  /\ lastIndexUpdate st1 = now W (S (clock st)))
  /\ ((now W (clock st) - lastIndexUpdate st <= indexUpdateInterval)%Z ->
      index_searched W st = fuseInstances st
      /\ refresh_if_stale W st = Returned tt (tick st))
  /\ indexUpdateInterval = 300000%Z.
Proof.
  split; [| split; [| reflexivity]].
  - intros Hstale. unfold index_searched, refresh_if_stale, date_now. run.
    replace (indexUpdateInterval <? now W (clock st) - lastIndexUpdate st)%Z with true
      by (symmetry; now apply Z.ltb_lt).
    match goal with
    | |- context [buildSearchIndex W ?s] =>
        destruct (buildSearchIndex_spec W s) as (st1 & R & A & _ & C & _)
    end.
    rewrite R. split; [exact A |]. exists st1. split; [reflexivity | exact C].
  - intros Hfresh. unfold index_searched, refresh_if_stale, date_now. run.
    replace (indexUpdateInterval <? now W (clock st) - lastIndexUpdate st)%Z with false
      by (symmetry; now apply Z.ltb_ge).
    split; reflexivity.
Qed.

Lemma stale_index_is_rebuilt_witness :
  map fst (index_searched Sample.world initial) =
    ["travelPins"; "people"; "journalEntries"; "expenses"; "checklistItems";
     "learningEntries"; "foodEntries"]
  /\ index_searched Sample.world Sample.ready = fuseInstances Sample.ready.
Proof.
  destruct (stale_index_is_rebuilt Sample.world initial) as (S & _ & _).
  destruct (stale_index_is_rebuilt Sample.world Sample.ready) as (_ & F & _).
  split.
  - rewrite (proj1 (S ltac:(vm_compute; reflexivity))). reflexivity.
  - apply F. vm_compute. discriminate.
Defined.
